(** * SSH-Telegram-Bot: the session and command-execution core

    A shallow embedding of [utils.py] (command filter, input sanitizer) and
    [servers.py] (server inventory, single-slot connection session), with the
    properties of the specification proved over it; then of
    [authentication.py] (the admin list) and of the functions of [bot.py]
    that are not Telegram handlers, with properties read off the code.

    Python values are modelled as follows.
    - [str] is a sequence of Unicode code points: [list N].
    - [int] is [Z]; [len] is [length] (a [nat]).
    - [Optional[T]] is [option T]; a [Tuple] is a pair.
    - A file is absent or a sequence of characters; reading it in text
      mode translates newlines.  The servers file goes through [csv], whose
      writer and reader are modelled as CPython 3.11 has them.
    - The module globals of [servers.py] are one record that every operation
      takes and returns; what paramiko and the file system answer is an
      explicit argument of the operation that asks. *)

From Stdlib Require Import String Ascii.
From Stdlib Require Import List NArith ZArith Bool Lia DecimalString.
Import ListNotations.

(* ================================================================== *)
(** * Python strings *)
(* ================================================================== *)

Module PyStr.

Definition char := N.
Definition str := list char.

(** A literal of the source, written as a Rocq string (ASCII only). *)
Definition py (s : string) : str := map N_of_ascii (list_ascii_of_string s).

Open Scope N_scope.

(** [str.isspace] on one code point, as CPython's [_PyUnicode_IsWhitespace]
    (bidirectional type WS, B or S, or category Zs); it is also what [\s]
    matches in a [str] pattern and what [strip()] and [split()] cut at. *)
Definition isspace (c : char) : bool :=
  ((0x09 <=? c) && (c <=? 0x0D)) ||
  ((0x1C <=? c) && (c <=? 0x20)) ||
  (c =? 0x85) || (c =? 0xA0) || (c =? 0x1680) ||
  ((0x2000 <=? c) && (c <=? 0x200A)) ||
  (c =? 0x2028) || (c =? 0x2029) || (c =? 0x202F) || (c =? 0x205F) ||
  (c =? 0x3000).

Close Scope N_scope.

(** [s.lstrip()], [s.rstrip()], [s.strip()] *)
Fixpoint lstrip (s : str) : str :=
  match s with
  | [] => []
  | c :: s' => if isspace c then lstrip s' else s
  end.

Definition rstrip (s : str) : str := rev (lstrip (rev s)).

Definition strip (s : str) : str := rstrip (lstrip s).

(** [s.startswith(prefix)] *)
Fixpoint startswith (s prefix : str) : bool :=
  match prefix, s with
  | [], _ => true
  | p :: prefix', c :: s' => N.eqb c p && startswith s' prefix'
  | _ :: _, [] => false
  end.

(** [needle in s] *)
Fixpoint contains (s needle : str) : bool :=
  startswith s needle ||
  match s with
  | [] => false
  | _ :: s' => contains s' needle
  end.

(** [s.split()]: the maximal runs of non-whitespace, in order.  [word] is
    the run being read, in reverse. *)
Fixpoint split_from (word : str) (s : str) : list str :=
  match s with
  | [] => match word with [] => [] | _ => [rev word] end
  | c :: s' =>
      if isspace c
      then match word with
           | [] => split_from [] s'
           | _ => rev word :: split_from [] s'
           end
      else split_from (c :: word) s'
  end.

Definition split (s : str) : list str := split_from [] s.

(** [sep.join(parts)] *)
Fixpoint join (sep : str) (parts : list str) : str :=
  match parts with
  | [] => []
  | [p] => p
  | p :: rest => p ++ sep ++ join sep rest
  end.

(** [str.lower] is the interpreter's Unicode lower-casing; its table is not
    part of the repository, so the development is parametric in it: every
    statement below holds for whatever function [lower] is, but where one
    states a law of it as a hypothesis. *)
Class Lowering := lower : str -> str.

(** The lower-casing of the code points below U+0100 (A-Z, and the Latin-1
    capitals U+00C0..U+00DE but U+00D7), used to run the model on concrete
    text. *)
Definition latin1_lower (c : char) : char :=
  if ((65 <=? c) && (c <=? 90))%N then (c + 32)%N
  else if ((0xC0 <=? c) && (c <=? 0xDE) && negb (c =? 0xD7))%N then (c + 32)%N
  else c.

#[export] Instance latin1 : Lowering := map latin1_lower.

End PyStr.

(* ================================================================== *)
(** * The fragment of [re] the filter uses *)
(* ================================================================== *)

Module Re.
Import PyStr.

(** Patterns: literals, [\s], sequence, alternative, [*]; [+] is derived.
    [Empty] matches nothing and only arises in derivatives. *)
Inductive regex : Type :=
| Empty
| Eps
| Lit (c : char)
| Space
| Cat (r1 r2 : regex)
| Alt (r1 r2 : regex)
| Star (r : regex).

Definition Plus (r : regex) : regex := Cat r (Star r).

Fixpoint Seq (rs : list regex) : regex :=
  match rs with
  | [] => Eps
  | r :: rs' => Cat r (Seq rs')
  end.

(** A run of literal characters. *)
Definition lit (s : string) : regex := Seq (map Lit (py s)).

Definition ascii_lower (c : char) : char :=
  if ((65 <=? c) && (c <=? 90))%N then (c + 32)%N else c.

Section Matching.

(** The [re.IGNORECASE] flag.  With it a literal and a character agree when
    their lower-casings do; for the literals of this program (ASCII
    punctuation and the letters d, e, f, m, r, v) no code point beyond the
    ASCII capital lower-cases to one of them, so the ASCII mapping is exact. *)
Variable ignorecase : bool.

Definition lit_matches (l c : char) : bool :=
  if ignorecase then N.eqb (ascii_lower c) (ascii_lower l) else N.eqb c l.

(** The language of a pattern. *)
Inductive Matches : regex -> str -> Prop :=
| MEps : Matches Eps []
| MLit l c : lit_matches l c = true -> Matches (Lit l) [c]
| MSpace c : isspace c = true -> Matches Space [c]
| MCat r1 r2 s1 s2 :
    Matches r1 s1 -> Matches r2 s2 -> Matches (Cat r1 r2) (s1 ++ s2)
| MAltL r1 r2 s : Matches r1 s -> Matches (Alt r1 r2) s
| MAltR r1 r2 s : Matches r2 s -> Matches (Alt r1 r2) s
| MStar0 r : Matches (Star r) []
| MStarS r s1 s2 :
    Matches r s1 -> Matches (Star r) s2 -> Matches (Star r) (s1 ++ s2).

(** Matching by derivatives. *)
Fixpoint nullable (r : regex) : bool :=
  match r with
  | Empty | Lit _ | Space => false
  | Eps | Star _ => true
  | Cat r1 r2 => nullable r1 && nullable r2
  | Alt r1 r2 => nullable r1 || nullable r2
  end.

Fixpoint deriv (c : char) (r : regex) : regex :=
  match r with
  | Empty | Eps => Empty
  | Lit l => if lit_matches l c then Eps else Empty
  | Space => if isspace c then Eps else Empty
  | Cat r1 r2 =>
      Alt (Cat (deriv c r1) r2) (if nullable r1 then deriv c r2 else Empty)
  | Alt r1 r2 => Alt (deriv c r1) (deriv c r2)
  | Star r1 => Cat (deriv c r1) (Star r1)
  end.

(** [re.match(r, s)] is not [None]: some prefix of [s] is in the language. *)
Fixpoint match_ (r : regex) (s : str) : bool :=
  nullable r ||
  match s with
  | [] => false
  | c :: s' => match_ (deriv c r) s'
  end.

(** [re.search(r, s)] is not [None]: a match starts at some position. *)
Fixpoint search (r : regex) (s : str) : bool :=
  match_ r s ||
  match s with
  | [] => false
  | _ :: s' => search r s'
  end.

End Matching.

End Re.

(* ================================================================== *)
(** * utils.py *)
(* ================================================================== *)

Module Utils.
Import PyStr Re.

(** [Tuple[bool, Optional[str]]] *)
Definition verdict := (bool * option str)%type.

Section Filter.
Context `{Lowering}.

(** The loop over [blocked_commands]; [None] when it falls through. *)
Fixpoint check_blocked (command : str) (blocked_commands : list str)
  : option verdict :=
  match blocked_commands with
  | [] => None
  | blocked :: rest =>
      if contains (lower command) (lower blocked)
      then Some (false, Some (py "Command contains blocked pattern: " ++ blocked))
      else check_blocked command rest
  end.

(** [dangerous_patterns], in the order of the source:
    [;\s*rm\s+-rf], [&&\s*rm\s+-rf], [\|\s*rm\s+-rf], [>\s*/dev/],
    [<\s*/dev/]. *)
Definition dangerous_patterns : list regex :=
  [ Seq [lit ";"; Star Space; lit "rm"; Plus Space; lit "-rf"];
    Seq [lit "&&"; Star Space; lit "rm"; Plus Space; lit "-rf"];
    Seq [lit "|"; Star Space; lit "rm"; Plus Space; lit "-rf"];
    Seq [lit ">"; Star Space; lit "/dev/"];
    Seq [lit "<"; Star Space; lit "/dev/"] ].

(** The loop over [dangerous_patterns], with [re.IGNORECASE]. *)
Fixpoint check_dangerous (command : str) (patterns : list regex)
  : option verdict :=
  match patterns with
  | [] => None
  | pattern :: rest =>
      if search true pattern command
      then Some (false, Some (py "Command contains dangerous pattern"))
      else check_dangerous command rest
  end.

(** The allow-list block.  [if allowed_prefixes:] is false for [None] and
    for the empty list, [if command_parts:] for a command with no token. *)
Definition check_allowed (command : str) (allowed_prefixes : option (list str))
  : option verdict :=
  match allowed_prefixes with
  | None | Some [] => None
  | Some prefixes =>
      match split command with
      | [] => None
      | first :: _ =>
          let first_word := lower first in
          if negb (existsb (fun prefix => startswith first_word prefix) prefixes)
          then Some (false,
                     Some (py "Command must start with one of: "
                           ++ join (py ", ") prefixes))
          else None
      end
  end.

Definition validate_command (command : str) (blocked_commands : list str)
  (allowed_prefixes : option (list str)) : verdict :=
  let command := strip command in
  match check_blocked command blocked_commands with
  | Some rejected => rejected
  | None =>
      match check_dangerous command dangerous_patterns with
      | Some rejected => rejected
      | None =>
          match check_allowed command allowed_prefixes with
          | Some rejected => rejected
          | None => (true, None)
          end
      end
  end.

End Filter.

(** The character class [[\x00-\x1f\x7f-\x9f]]. *)
Definition is_control (c : char) : bool :=
  ((c <=? 0x1f) || ((0x7f <=? c) && (c <=? 0x9f)))%N.

Definition sanitize_input (text : str) : str :=
  (* re.sub(r'[\x00-\x1f\x7f-\x9f]', '', text) *)
  let text := filter (fun c => negb (is_control c)) text in
  let text := if 1000 <? length text then firstn 1000 text else text in
  strip text.

End Utils.

(* ================================================================== *)
(** * The [csv] module, as the servers file uses it *)
(* ================================================================== *)

Module Csv.
Import PyStr.

(** The dialect of [csv.writer(f, delimiter=',')] and
    [csv.reader(f, delimiter=',')]: excel, with minimal quoting, doubled
    quotes, no escape character, not strict. *)
Definition delimiter : char := 44%N.
Definition quotechar : char := 34%N.
Definition lineterminator : str := [13%N; 10%N].

(** [csv.field_size_limit()] *)
Definition field_size_limit : N := 131072%N.

(** ** The writer *)

(** The characters that make the writer quote a field. *)
Definition needs_quotes (c : char) : bool :=
  N.eqb c delimiter || N.eqb c quotechar || existsb (N.eqb c) lineterminator.

(** The characters of a field, each quote doubled. *)
Fixpoint join_append_data (field : str) : str :=
  match field with
  | [] => []
  | c :: field' =>
      if N.eqb c quotechar then quotechar :: c :: join_append_data field'
      else c :: join_append_data field'
  end.

Definition join_append (field : str) (quoted : bool) : str :=
  if quoted || existsb needs_quotes field
  then quotechar :: join_append_data field ++ [quotechar]
  else field.

Fixpoint join_fields (fields : list str) : str :=
  match fields with
  | [] => []
  | [field] => join_append field false
  | field :: rest => join_append field false ++ delimiter :: join_fields rest
  end.

(** The fields of a record, joined; a record of one empty field is written
    quoted. *)
Definition join_record (fields : list str) : str :=
  match fields with
  | [[]] => join_append [] true
  | _ => join_fields fields
  end.

(** [csv_writer.writerow(fields)]: what goes to the file. *)
Definition writerow (fields : list str) : str :=
  join_record fields ++ lineterminator.

Definition writerows (rows : list (list str)) : str :=
  concat (map writerow rows).

(** ** The reader *)

Inductive ParserState :=
| START_RECORD
| START_FIELD
| IN_FIELD
| IN_QUOTED_FIELD
| QUOTE_IN_QUOTED_FIELD
| EAT_CRNL.

(** The fields of the record being read, the state, and the field being
    read. *)
Record ReaderObj := {
  rd_fields : list str;
  rd_state : ParserState;
  rd_field : str
}.

Definition parse_reset : ReaderObj :=
  {| rd_fields := []; rd_state := START_RECORD; rd_field := [] |}.

Definition with_state (self : ReaderObj) (s : ParserState) : ReaderObj :=
  {| rd_fields := rd_fields self; rd_state := s; rd_field := rd_field self |}.

Definition parse_save_field (self : ReaderObj) : ReaderObj :=
  {| rd_fields := rd_fields self ++ [rd_field self];
     rd_state := rd_state self;
     rd_field := [] |}.

(** [None]: "field larger than field limit". *)
Definition parse_add_char (self : ReaderObj) (c : char) : option ReaderObj :=
  if (field_size_limit <=? N.of_nat (length (rd_field self)))%N then None
  else Some {| rd_fields := rd_fields self;
               rd_state := rd_state self;
               rd_field := rd_field self ++ [c] |}.

Definition is_newline (c : char) : bool := N.eqb c 10 || N.eqb c 13.

(** The state [START_FIELD]; [c] is a character, or [None] at the end of a
    line. *)
Definition start_field (self : ReaderObj) (c : option char) : option ReaderObj :=
  match c with
  | None => Some (with_state (parse_save_field self) START_RECORD)
  | Some ch =>
      if is_newline ch then Some (with_state (parse_save_field self) EAT_CRNL)
      else if N.eqb ch quotechar then Some (with_state self IN_QUOTED_FIELD)
      else if N.eqb ch delimiter then Some (parse_save_field self)
      else option_map (fun self => with_state self IN_FIELD)
             (parse_add_char self ch)
  end.

Definition parse_process_char (self : ReaderObj) (c : option char)
  : option ReaderObj :=
  match rd_state self with
  | START_RECORD =>
      match c with
      | None => Some self
      | Some ch =>
          if is_newline ch then Some (with_state self EAT_CRNL)
          else start_field (with_state self START_FIELD) c
      end
  | START_FIELD => start_field self c
  | IN_FIELD =>
      match c with
      | None => Some (with_state (parse_save_field self) START_RECORD)
      | Some ch =>
          if is_newline ch then Some (with_state (parse_save_field self) EAT_CRNL)
          else if N.eqb ch delimiter
          then Some (with_state (parse_save_field self) START_FIELD)
          else parse_add_char self ch
      end
  | IN_QUOTED_FIELD =>
      match c with
      | None => Some self
      | Some ch =>
          if N.eqb ch quotechar then Some (with_state self QUOTE_IN_QUOTED_FIELD)
          else parse_add_char self ch
      end
  | QUOTE_IN_QUOTED_FIELD =>
      match c with
      | None => Some (with_state (parse_save_field self) START_RECORD)
      | Some ch =>
          if N.eqb ch quotechar
          then option_map (fun self => with_state self IN_QUOTED_FIELD)
                 (parse_add_char self ch)
          else if N.eqb ch delimiter
          then Some (with_state (parse_save_field self) START_FIELD)
          else if is_newline ch
          then Some (with_state (parse_save_field self) EAT_CRNL)
          else option_map (fun self => with_state self IN_FIELD)
                 (parse_add_char self ch)
      end
  | EAT_CRNL =>
      match c with
      | None => Some (with_state self START_RECORD)
      | Some ch => if is_newline ch then Some self else None
      end
  end.

(** Where the reader is in the text: the rows it has yielded, then either
    the exception it raised, or its parser and whether a line is under way. *)
Inductive cursor :=
| Raised (rows : list (list str))
| Reading (rows : list (list str)) (self : ReaderObj) (partial : bool).

Definition start : cursor := Reading [] parse_reset false.

(** The end of a line: a record is yielded when the parser is back at the
    start of a record. *)
Definition end_of_line (rows : list (list str)) (self : ReaderObj) : cursor :=
  match parse_process_char self None with
  | None => Raised rows
  | Some self =>
      match rd_state self with
      | START_RECORD => Reading (rows ++ [rd_fields self]) parse_reset false
      | _ => Reading rows self false
      end
  end.

(** One character of the file; a line of the file ends with its ["\n"]. *)
Definition feed (cur : cursor) (c : char) : cursor :=
  match cur with
  | Raised _ => cur
  | Reading rows self _ =>
      match parse_process_char self (Some c) with
      | None => Raised rows
      | Some self =>
          if N.eqb c 10 then end_of_line rows self else Reading rows self true
      end
  end.

(** The end of the file: the last line ends there when it has no ["\n"],
    and a record under way (an open quoted field) is yielded as it stands. *)
Definition end_of_file (cur : cursor) : list (list str) :=
  match cur with
  | Raised rows => rows
  | Reading rows self partial =>
      match (if partial then end_of_line rows self else cur) with
      | Raised rows => rows
      | Reading rows self _ =>
          match rd_field self, rd_state self with
          | [], IN_QUOTED_FIELD | _ :: _, _ =>
              rows ++ [rd_fields (parse_save_field self)]
          | [], _ => rows
          end
      end
  end.

(** [list(csv.reader(f))] up to the exception, if one is raised.  [text] is
    what the file object hands out, line by line; the reader is given the
    characters of each line, then the end of the line. *)
Definition reader (text : str) : list (list str) :=
  end_of_file (fold_left feed text start).

End Csv.

(* ================================================================== *)
(** * servers.py *)
(* ================================================================== *)

Module Servers.
Import PyStr.

(** ** The servers file *)

Definition row := list str.

(** [Config.SERVERS_FILE] on disk: [None] when the path does not exist,
    otherwise its characters.  The writers open it with [newline=''], so
    that what [csv.writer] puts down is in the file as it is; the reader
    opens it without, and receives it with its newlines translated. *)
Definition servers_file := option str.

Definition header : row :=
  [py "SERVER_IP"; py "LOGIN_USERNAME"; py "LOGIN_PASSWORD"; py "ADDED_BY";
   py "DATE_ADDED"].

(** Where the I/O of one call raises, if it does; the file object raises
    too when it cannot decode what it reads or encode what it is given. *)
Inductive fault :=
| NoFault
| OpenRaises
| RaisesAfter (n : nat).   (* after [n] rows went through *)

Definition os_path_exists (file : servers_file) : bool :=
  match file with Some _ => true | None => false end.

(** What [csv_writer.writerow] puts down of [rows] and whether it got to
    the end. *)
Definition write_rows (io : fault) (rows : list row) : str * bool :=
  match io with
  | RaisesAfter n =>
      if n <? length rows then (Csv.writerows (firstn n rows), false)
      else (Csv.writerows rows, true)
  | _ => (Csv.writerows rows, true)
  end.

(** The read loop: [enumerate(csv_reader)] from [line_count]. *)
Fixpoint read_rows (line_count : nat) (rows : list row) : list row :=
  match rows with
  | [] => []
  | r :: rest =>
      (if (0 <? line_count) && (3 <=? length r) then [r] else [])
        ++ read_rows (S line_count) rest
  end.

(** The file is opened for reading in text mode without [newline='']
    (the writers pass it): the reader receives every ["\r\n"] and every
    other ["\r"] as ["\n"], inside a quoted field too. *)
Fixpoint universal_newlines (s : str) : str :=
  match s with
  | [] => []
  | c :: s' =>
      if N.eqb c 13
      then 10%N :: match s' with
                   | [] => []
                   | d :: s'' =>
                       if N.eqb d 10 then universal_newlines s''
                       else universal_newlines s'
                   end
      else c :: universal_newlines s'
  end.

(** An exception, of the reader ("field larger than field limit") or of the
    file, leaves in [servers] what was appended before it. *)
Definition get_servers_data (io : fault) (file : servers_file) : list row :=
  match file with
  | None => []
  | Some content =>
      let csv_reader := Csv.reader (universal_newlines content) in
      match io with
      | NoFault => read_rows 0 csv_reader
      | OpenRaises => []
      | RaisesAfter n => read_rows 0 (firstn n csv_reader)
      end
  end.

Definition add_server (io : fault)
  (server_ip username password sender timestamp : str) (file : servers_file)
  : bool * servers_file :=
  let file_exists := os_path_exists file in
  match io with
  | OpenRaises => (false, file)
  | _ =>
      (* mode 'a': created when absent, written after its last character *)
      let old := match file with Some content => content | None => [] end in
      let '(written, ok) :=
        write_rows io
          ((if negb file_exists then [header] else [])
             ++ [[server_ip; username; password; sender; timestamp]]) in
      (ok, Some (old ++ written))
  end.

(** [servers.pop(i)] for [0 <= i < len(servers)]. *)
Definition pop (servers : list row) (i : nat) : list row :=
  firstn i servers ++ skipn (S i) servers.

Definition del_server (rd wr : fault) (server_number : Z) (file : servers_file)
  : bool * servers_file :=
  if negb (os_path_exists file) then (false, file)
  else
    let servers := get_servers_data rd file in
    if ((server_number <? 1) || (server_number >? Z.of_nat (length servers)))%Z
    then (false, file)
    else
      let servers := pop servers (Z.to_nat (server_number - 1)) in
      match wr with
      | OpenRaises => (false, file)
      | _ =>
          (* mode 'w': the file is rewritten from its start *)
          let '(written, ok) := write_rows wr (header :: servers) in
          (ok, Some written)
      end.

(** [init_files.initialize_files], for the servers file. *)
Definition initialize_files (file : servers_file) : servers_file :=
  if negb (os_path_exists file) then Some (Csv.writerow header) else file.

(** Where the reader is once the whole file went through it. *)
Definition read_to_end (content : str) : Csv.cursor :=
  fold_left Csv.feed (universal_newlines content) Csv.start.

(** What [add_server] needs of the file to add a record to the listing:
    there is no file; or the file is read to its end without error, there
    is a first record (the header of section 6 of the specification), and
    the file ends where a record ends, after a line break and outside
    quotes. *)
Definition well_formed (file : servers_file) : Prop :=
  match file with
  | None => True
  | Some content =>
      exists h rows,
        read_to_end content = Csv.Reading (h :: rows) Csv.parse_reset false
  end.

(** The file ends between two records, or its reading raises before. *)
Definition ends_between_records (file : servers_file) : Prop :=
  match file with
  | None => True
  | Some content =>
      match read_to_end content with
      | Csv.Raised _ => True
      | Csv.Reading _ self partial => self = Csv.parse_reset /\ partial = false
      end
  end.

Definition no_carriage_return (s : str) : Prop := ~ In 13%N s.

(** A field the reader accepts: of at most 131072 characters. *)
Definition within_limit (s : str) : Prop :=
  (N.of_nat (length s) <= Csv.field_size_limit)%N.

(** ** The connection session *)

Inductive host_key_policy := RejectPolicy | AutoAddPolicy.

(** A [paramiko.SSHClient] object. *)
Record SSHClient := { missing_host_key_policy : host_key_policy }.

(** The dict kept in [_connected_server_info]. *)
Record server_info := {
  ip : str;
  username : str;
  connected_at : Z
}.

(** Calls made on the transport. *)
Inductive io_event :=
| EvConnect (server_ip username password : str)
| EvClose
| EvExecCommand (command : str) (timeout : Z).

(** The module globals, and the calls made on the transport so far (latest
    first). *)
Record state := {
  _ssh_client : option SSHClient;
  _is_connected : bool;
  _connected_server_info : option server_info;
  transport_io : list io_event
}.

Definition initial : state :=
  {| _ssh_client := None; _is_connected := false;
     _connected_server_info := None; transport_io := [] |}.

(** What the transport answers. *)
Inductive connect_reply :=
| ConnectOk
| AuthenticationException
| SSHException (e : str)
| ConnectException (e : str).

Inductive close_reply := CloseOk | CloseException (e : str).

Inductive exec_reply :=
| ExecOk (stdout_lines stderr_lines : list str)
| ExecException (e : str).

Definition is_connected_to_server (st : state) : bool := _is_connected st.

Definition get_connected_server_info (st : state) : option server_info :=
  _connected_server_info st.

Definition get_ssh_client (st : state) : SSHClient * state :=
  match _ssh_client st with
  | Some client => (client, st)
  | None =>
      let client := {| missing_host_key_policy := AutoAddPolicy |} in
      (client,
       {| _ssh_client := Some client;
          _is_connected := _is_connected st;
          _connected_server_info := _connected_server_info st;
          transport_io := transport_io st |})
  end.

Definition connect_to_server (reply : connect_reply) (now : Z)
  (server_ip username password : str) (st : state)
  : (bool * option str) * state :=
  if _is_connected st
  then ((false, Some (py "Already connected to a server. Please disconnect first.")), st)
  else
    let '(client, st) := get_ssh_client st in
    let io := EvConnect server_ip username password :: transport_io st in
    let failed error_msg :=
      ((false, Some error_msg),
       {| _ssh_client := _ssh_client st;
          _is_connected := _is_connected st;
          _connected_server_info := _connected_server_info st;
          transport_io := io |}) in
    match reply with
    | ConnectOk =>
        ((true, None),
         {| _ssh_client := _ssh_client st;
            _is_connected := true;
            _connected_server_info :=
              Some {| ip := server_ip; username := username; connected_at := now |};
            transport_io := io |})
    | AuthenticationException =>
        failed (py "Authentication failed. Check username and password.")
    | SSHException e => failed (py "SSH connection error: " ++ e)
    | ConnectException e => failed (py "Connection failed: " ++ e)
    end.

Definition disconnect_from_server (reply : close_reply) (st : state)
  : bool * state :=
  if negb (_is_connected st) then (false, st)
  else
    match _ssh_client st with
    | Some _ =>
        match reply with
        | CloseOk =>
            (true,
             {| _ssh_client := None;
                _is_connected := false;
                _connected_server_info := None;
                transport_io := EvClose :: transport_io st |})
        | CloseException _ =>
            (* the except branch: [_ssh_client = None] was not reached *)
            (false,
             {| _ssh_client := _ssh_client st;
                _is_connected := false;
                _connected_server_info := None;
                transport_io := EvClose :: transport_io st |})
        end
    | None =>
        (true,
         {| _ssh_client := None;
            _is_connected := false;
            _connected_server_info := None;
            transport_io := transport_io st |})
    end.

Definition do_command (reply : exec_reply) (command : str) (timeout : Z)
  (st : state) : (str * option str) * state :=
  if negb (_is_connected st) || negb (match _ssh_client st with Some _ => true | None => false end)
  then (([], Some (py "Not connected to any server")), st)
  else
    let st :=
      {| _ssh_client := _ssh_client st;
         _is_connected := _is_connected st;
         _connected_server_info := _connected_server_info st;
         transport_io := EvExecCommand command timeout :: transport_io st |} in
    match reply with
    | ExecOk stdout_lines stderr_lines =>
        let stdout_text := concat stdout_lines in
        let stderr_text := concat stderr_lines in
        ((stdout_text,
          match stderr_text with [] => None | _ => Some stderr_text end), st)
    | ExecException e =>
        (([], Some (py "Command execution failed: " ++ e)), st)
    end.

(** Sequences of calls, each with what the transport answers to it. *)
Inductive call :=
| Connect (reply : connect_reply) (now : Z) (server_ip username password : str)
| Disconnect (reply : close_reply)
| Execute (reply : exec_reply) (command : str) (timeout : Z).

Definition step (st : state) (c : call) : state :=
  match c with
  | Connect reply now server_ip username password =>
      snd (connect_to_server reply now server_ip username password st)
  | Disconnect reply => snd (disconnect_from_server reply st)
  | Execute reply command timeout => snd (do_command reply command timeout st)
  end.

Definition run (calls : list call) : state := fold_left step calls initial.

(** What holds of the globals after any sequence of calls. *)
Definition consistent (st : state) : Prop :=
  (_is_connected st = true ->
   _ssh_client st <> None /\ _connected_server_info st <> None) /\
  (_is_connected st = false -> _connected_server_info st = None).

End Servers.

(* ================================================================== *)
(** * config.py *)
(* ================================================================== *)

Module Config.
Import PyStr.

Definition ALLOWED_COMMAND_PREFIXES : list str :=
  [py "ls"; py "cd"; py "pwd"; py "cat"; py "grep"; py "find"; py "ps";
   py "top"; py "df"; py "du"; py "free"; py "uptime"].

Definition BLOCKED_COMMANDS : list str :=
  [py "rm -rf /"; py "mkfs"; py "dd if="; py "format"; py "fdisk"].

End Config.

(* ================================================================== *)
(** * Inputs of the scenarios *)
(* ================================================================== *)

Module Scenarios.
Import PyStr Servers.

(** The chained command of section 8 of the specification. *)
Definition chained_rm : str := py "foo; rm -rf /tmp".

(** The record of the end-to-end scenario, alone in a store. *)
Definition bob : row :=
  [py "10.0.0.5"; py "bob"; py "pw"; py "admin1"; py "2024-01-01 00:00:00"].

Definition one_server : servers_file :=
  Some (Csv.writerows [header; bob]).

(** A session: one successful connect. *)
Definition bob_connected : list call :=
  [Connect ConnectOk 1704067200 (py "10.0.0.5") (py "bob") (py "pw")].

End Scenarios.

(* ================================================================== *)
(** * authentication.py *)
(* ================================================================== *)

Module Authentication.
Import PyStr Servers.

(** [Config.ADMINS_FILE] on disk: [None] when the path does not exist,
    otherwise its characters.  The platform's line separator is taken to be
    ["\n"], so that text is written as given; reading translates newlines,
    as for the servers file. *)
Definition admins_file := option str.

(** Whether the [open]/[read] of a call raises. *)
Inductive read_io := ReadOk | ReadRaises.

(** Where the [open]/[write] of a call raises, if it does. *)
Inductive write_io := WriteOk | WriteOpenRaises | WriteRaises.

Definition comma : char := 44%N.

(** [s.split(sep)] for a separator of one character. *)
Fixpoint split_on (sep : char) (s : str) : list str :=
  match s with
  | [] => [[]]
  | c :: s' =>
      if N.eqb c sep then [] :: split_on sep s'
      else match split_on sep s' with
           | piece :: pieces => (c :: piece) :: pieces
           | [] => [[c]]
           end
  end.

(** [a == b] on strings, and [x in xs] on a list of strings. *)
Fixpoint str_eqb (a b : str) : bool :=
  match a, b with
  | [], [] => true
  | x :: a', y :: b' => N.eqb x y && str_eqb a' b'
  | _, _ => false
  end.

Definition mem (x : str) (xs : list str) : bool := existsb (str_eqb x) xs.

Definition nonempty (s : str) : bool :=
  match s with [] => false | _ => true end.

(** [[admin.strip() for admin in content.split(',') if admin.strip()]] *)
Definition admins_of (content : str) : list str :=
  filter nonempty (map strip (split_on comma content)).

(** [file.read().strip()] *)
Definition read_content (raw : str) : str := strip (universal_newlines raw).

(** [is_admin_user]; [user_id] stands for [str(user_id)]. *)
Definition is_admin_user (rd : read_io) (user_id : str) (file : admins_file)
  : bool :=
  match file with
  | None => false
  | Some raw =>
      match rd with
      | ReadRaises => false
      | ReadOk =>
          let content := read_content raw in
          if negb (nonempty content) then false
          else mem user_id (admins_of content)
      end
  end.

Definition add_admin_to_file (rd : read_io) (wr : write_io) (new_admin : str)
  (file : admins_file) : bool * admins_file :=
  let new_admin := strip new_admin in
  if negb (nonempty new_admin) then (false, file)
  else if is_admin_user rd new_admin file then (true, file)
  else
    let file_exists := match file with Some _ => true | None => false end in
    (* mode 'a': created when absent, written at the end *)
    let old := match file with Some raw => raw | None => [] end in
    match wr with
    | WriteOpenRaises => (false, file)
    | WriteRaises => (false, Some old)
    | WriteOk =>
        (true,
         Some (old ++ (if file_exists then comma :: new_admin else new_admin)))
    end.

(** [admins.remove(x)]: the first occurrence goes. *)
Fixpoint list_remove (x : str) (xs : list str) : list str :=
  match xs with
  | [] => []
  | y :: xs' => if str_eqb x y then xs' else y :: list_remove x xs'
  end.

Definition remove_admin (rd : read_io) (wr : write_io) (admin_id : str)
  (file : admins_file) : bool * admins_file :=
  match file with
  | None => (false, file)
  | Some raw =>
      match rd with
      | ReadRaises => (false, file)
      | ReadOk =>
          let content := read_content raw in
          if negb (nonempty content) then (false, file)
          else
            let admins := admins_of content in
            if negb (mem admin_id admins) then (false, file)
            else
              let admins := list_remove admin_id admins in
              (* mode 'w': the file is rewritten from its start *)
              match wr with
              | WriteOpenRaises => (false, file)
              | WriteRaises => (false, Some [])
              | WriteOk => (true, Some (join [comma] admins))
              end
      end
  end.

End Authentication.

(* ================================================================== *)
(** * utils.py, continued: [format_server_list] *)
(* ================================================================== *)

Module UtilsFormat.
Import PyStr Servers.

Definition nl : str := [10%N].

(** [str(n)] for a non-negative [int]. *)
Definition str_of_nat (n : nat) : str :=
  py (NilZero.string_of_uint (Nat.to_uint n)).

(** The loop over [enumerate(servers, start=idx)]; [None] when an index is
    out of range ([IndexError]). *)
Fixpoint format_rows (idx : nat) (servers : list row) (table : str)
  : option str :=
  match servers with
  | [] => Some table
  | server :: rest =>
      match nth_error server 0, nth_error server 3, nth_error server 4 with
      | Some server_ip, Some added_by, Some date_added =>
          format_rows (S idx) rest
            (table
               ++ py "Server Number: " ++ str_of_nat idx ++ nl
               ++ py "Server IP: " ++ server_ip ++ nl
               ++ py "Added By: " ++ added_by ++ nl
               ++ py "Date Added: " ++ date_added ++ nl
               ++ repeat 45%N 20 ++ nl ++ nl)
      | _, _, _ => None
      end
  end.

Definition format_server_list (servers : list row) : option str :=
  match servers with
  | [] => Some (py "No servers found.")
  | _ => format_rows 1 servers (py "All Servers:" ++ nl ++ nl)
  end.

End UtilsFormat.

(* ================================================================== *)
(** * bot.py: the functions that are not Telegram handlers *)
(* ================================================================== *)

Module Bot.
Import PyStr Utils Servers Authentication UtilsFormat.

(** [Config.COMMANDS_FILE] on disk, as the admins file. *)
Definition commands_file := option str.

(** [file.readlines()]: the lines, each with its ["\n"] if it has one.
    [line] is the line being read, in reverse. *)
Fixpoint readlines_from (line : str) (s : str) : list str :=
  match s with
  | [] => match line with [] => [] | _ => [rev line] end
  | c :: s' =>
      if N.eqb c 10 then rev (c :: line) :: readlines_from [] s'
      else readlines_from (c :: line) s'
  end.

Definition readlines (s : str) : list str := readlines_from [] s.

Definition get_default_commands (rd : read_io) (file : commands_file)
  : list str :=
  match file with
  | None => []
  | Some raw =>
      match rd with
      | ReadRaises => []
      | ReadOk =>
          filter nonempty (map strip (readlines (universal_newlines raw)))
      end
  end.

(** [f"{x}"] for an [Optional[str]]. *)
Definition format_optional (x : option str) : str :=
  match x with Some s => s | None => py "None" end.

Section HandleCommand.
Context `{Lowering}.

(** [Config.SSH_TIMEOUT], read from the environment when the bot starts. *)
Variable SSH_TIMEOUT : Z.

(** [handle_command].  [do_command] catches what the transport raises, so
    the [except] branch here is never taken. *)
Definition handle_command (reply : exec_reply) (text : str) (st : state)
  : str * state :=
  if negb (is_connected_to_server st)
  then (py "I'm not connected to any server." ++ nl
          ++ py "Please connect me with /connect command", st)
  else
    let sanitized_text := sanitize_input text in
    let '(is_valid, error_msg) :=
      validate_command sanitized_text Config.BLOCKED_COMMANDS None in
    if negb is_valid
    then (py "Command rejected: " ++ format_optional error_msg, st)
    else
      let '((stdout, stderr), st) :=
        do_command reply sanitized_text SSH_TIMEOUT st in
      let response :=
        py "*Done!*" ++ nl ++ py "```shell" ++ nl ++ sanitized_text ++ nl
          ++ py "```" ++ nl ++ nl ++ py "*Output:*" ++ nl ++ py "```" ++ nl
          ++ stdout ++ nl ++ py "```" in
      let response :=
        match stderr with
        | Some ((_ :: _) as errors) =>
            response ++ nl ++ nl ++ py "*Errors:*" ++ nl ++ py "```" ++ nl
              ++ errors ++ nl ++ py "```"
        | _ => response
        end in
      (response, st).

End HandleCommand.

End Bot.

(* ================================================================== *)
(** * The inventory as a sequence of calls *)
(* ================================================================== *)

Module Inventory.
Import PyStr Servers.

(** Calls on the servers file, none of which meets an I/O error. *)
Inductive inventory_call :=
| AddServer (server_ip username password sender timestamp : str)
| DelServer (server_number : Z).

Definition inventory_step (file : servers_file) (c : inventory_call) : servers_file :=
  match c with
  | AddServer server_ip username password sender timestamp =>
      snd (add_server NoFault server_ip username password sender timestamp file)
  | DelServer server_number =>
      snd (del_server NoFault NoFault server_number file)
  end.

Definition inventory_run (calls : list inventory_call) (file : servers_file)
  : servers_file :=
  fold_left inventory_step calls file.

(** The inventory as the specification words it: an ordered sequence of
    records, with append and a delete by 1-based position that does nothing
    outside [1, count]. *)
Definition spec_step (records : list row) (c : inventory_call) : list row :=
  match c with
  | AddServer server_ip username password sender timestamp =>
      records ++ [[server_ip; username; password; sender; timestamp]]
  | DelServer server_number =>
      if ((1 <=? server_number)
          && (server_number <=? Z.of_nat (length records)))%Z
      then firstn (Z.to_nat server_number - 1) records
             ++ skipn (Z.to_nat server_number) records
      else records
  end.

Definition spec_run (calls : list inventory_call) (records : list row) : list row :=
  fold_left spec_step calls records.

(** The fields a call writes. *)
Definition written (c : inventory_call) : list str :=
  match c with
  | AddServer server_ip username password sender timestamp =>
      [server_ip; username; password; sender; timestamp]
  | DelServer _ => []
  end.

(** The test of the read loop on a row. *)
Definition long_enough (r : row) : bool := 3 <=? length r.

(** The rows the reader has yielded. *)
Definition rows_read (cur : Csv.cursor) : list row :=
  match cur with
  | Csv.Raised rows => rows
  | Csv.Reading rows _ _ => rows
  end.

(** A file as the program leaves it: it ends between two records (or its
    reading raises before), and every record after the first has at least
    five fields. *)
Definition maintained (file : servers_file) : Prop :=
  ends_between_records file /\
  match file with
  | None => True
  | Some content =>
      Forall (fun r => 5 <= length r) (tl (rows_read (read_to_end content)))
  end.

End Inventory.

(* ================================================================== *)
(** * Predicates of the proofs *)
(* ================================================================== *)

Module Invariants.
Import PyStr Servers.

(** The client, when there is one, trusts unknown host keys. *)
Definition trusting (st : state) : Prop :=
  forall client, _ssh_client st = Some client ->
    missing_host_key_policy client = AutoAddPolicy.

(** [f] on the last element of a list. *)
Fixpoint map_last (A : Type) (f : A -> A) (l : list A) : list A :=
  match l with
  | [] => []
  | [x] => [f x]
  | x :: l' => x :: map_last A f l'
  end.

Arguments map_last {A} f l.

(** A string whose last character satisfies [P]. *)
Definition ends_with (P : char -> Prop) (s : str) : Prop :=
  exists front y, s = front ++ [y] /\ P y.

(** An entry as [admins_of] yields them. *)
Definition entry (a : str) : Prop :=
  a <> [] /\ strip a = a /\ ~ In Authentication.comma a
  /\ no_carriage_return a.

(** A field within the limit of the reader, and a field that takes no more
    character. *)
Definition fits (field : str) : bool :=
  (N.of_nat (length field) <=? Csv.field_size_limit)%N.

Definition full (field : str) : bool :=
  (Csv.field_size_limit <=? N.of_nat (length field))%N.

(** Where the reader is after lines that hold the records [written], one
    each: at the start of a record, unless a field was over the limit. *)
Fixpoint read_written (rows written : list (list str)) : Csv.cursor :=
  match written with
  | [] => Csv.Reading rows Csv.parse_reset false
  | r :: written' =>
      if forallb fits r then read_written (rows ++ [r]) written'
      else Csv.Raised rows
  end.

(** A field of the reader: within the limit, of characters that satisfy
    [Q]. *)
Definition field_ok (Q : char -> Prop) (f : str) : Prop :=
  fits f = true /\ Forall Q f.

Definition parser_ok (Q : char -> Prop) (self : Csv.ReaderObj) : Prop :=
  Forall (field_ok Q) (Csv.rd_fields self) /\ field_ok Q (Csv.rd_field self).

Definition cursor_ok (Q : char -> Prop) (cur : Csv.cursor) : Prop :=
  match cur with
  | Csv.Raised rows => Forall (Forall (field_ok Q)) rows
  | Csv.Reading rows self _ =>
      Forall (Forall (field_ok Q)) rows /\ parser_ok Q self
  end.

(** A row as the listing yields them. *)
Definition listed (r : row) : Prop :=
  3 <= length r /\ Forall (field_ok (fun c => c <> 13%N)) r.

End Invariants.

(* ================================================================== *)
(** * Facts about the string operations *)
(* ================================================================== *)

Module PyStrFacts.
Import PyStr.

(** ** Stripping *)

Lemma lstrip_app (a b : str) :
  lstrip (a ++ b) = match lstrip a with [] => lstrip b | x => x ++ b end.
Proof.
  induction a as [|c a IH]; simpl.
  - destruct (lstrip b); reflexivity.
  - destruct (isspace c); [exact IH | reflexivity].
Qed.

Lemma lstrip_head (s : str) (c : char) (t : str) :
  lstrip s = c :: t -> isspace c = false.
Proof.
  induction s as [|x s IH]; simpl; [discriminate|].
  destruct (isspace x) eqn:E; [exact IH|].
  intros H. injection H as -> _. exact E.
Qed.

Lemma lstrip_fixed (s : str) :
  match s with [] => True | c :: _ => isspace c = false end -> lstrip s = s.
Proof. destruct s as [|c s]; simpl; [reflexivity|]. intros ->. reflexivity. Qed.

Lemma lstrip_idem (s : str) : lstrip (lstrip s) = lstrip s.
Proof.
  apply lstrip_fixed. destruct (lstrip s) eqn:E; [exact I|].
  exact (lstrip_head _ _ _ E).
Qed.

Lemma lstrip_length (s : str) : length (lstrip s) <= length s.
Proof.
  induction s as [|c s IH]; simpl; [lia|].
  destruct (isspace c); simpl; lia.
Qed.

Lemma lstrip_incl (s : str) (c : char) : In c (lstrip s) -> In c s.
Proof.
  induction s as [|x s IH]; simpl; [tauto|].
  destruct (isspace x); simpl; tauto.
Qed.

(** The structural reading of [rstrip]. *)
Lemma rstrip_cons (c : char) (s : str) :
  rstrip (c :: s) =
  match rstrip s with
  | [] => if isspace c then [] else [c]
  | t => c :: t
  end.
Proof.
  unfold rstrip. simpl rev. rewrite lstrip_app.
  destruct (lstrip (rev s)) as [|x l] eqn:E.
  - simpl. destruct (isspace c); reflexivity.
  - rewrite rev_app_distr. simpl.
    destruct (rev l ++ [x]) eqn:E'; [|reflexivity].
    destruct (rev l); discriminate.
Qed.

Lemma rstrip_idem (s : str) : rstrip (rstrip s) = rstrip s.
Proof. unfold rstrip. rewrite rev_involutive, lstrip_idem. reflexivity. Qed.

Lemma rstrip_length (s : str) : length (rstrip s) <= length s.
Proof.
  unfold rstrip. rewrite length_rev.
  etransitivity; [apply lstrip_length|]. rewrite length_rev. lia.
Qed.

Lemma rstrip_incl (s : str) (c : char) : In c (rstrip s) -> In c s.
Proof.
  unfold rstrip. intros H. apply in_rev in H. apply lstrip_incl in H.
  apply in_rev. exact H.
Qed.

Lemma rstrip_last (s : str) :
  match rev (rstrip s) with [] => True | c :: _ => isspace c = false end.
Proof.
  unfold rstrip. rewrite rev_involutive.
  destruct (lstrip (rev s)) eqn:E; [exact I|]. exact (lstrip_head _ _ _ E).
Qed.

(** [rstrip] keeps a first character that is not whitespace. *)
Lemma rstrip_keeps_head (s : str) :
  match s with [] => True | c :: _ => isspace c = false end ->
  match rstrip s with [] => True | c :: _ => isspace c = false end.
Proof.
  destruct s as [|c s]; [intros _; exact I|].
  intros Hc. rewrite rstrip_cons.
  destruct (rstrip s); [rewrite Hc|]; exact Hc.
Qed.

Lemma strip_head (s : str) :
  match strip s with [] => True | c :: _ => isspace c = false end.
Proof.
  unfold strip. apply rstrip_keeps_head.
  destruct (lstrip s) eqn:E; [exact I|]. exact (lstrip_head _ _ _ E).
Qed.

Lemma strip_idem (s : str) : strip (strip s) = strip s.
Proof.
  unfold strip at 1. rewrite (lstrip_fixed (strip s) (strip_head s)).
  unfold strip. apply rstrip_idem.
Qed.

Lemma strip_length (s : str) : length (strip s) <= length s.
Proof.
  unfold strip. etransitivity; [apply rstrip_length | apply lstrip_length].
Qed.

Lemma strip_incl (s : str) (c : char) : In c (strip s) -> In c s.
Proof. unfold strip. intros H. now apply lstrip_incl, rstrip_incl. Qed.

Lemma strip_last (s : str) :
  match rev (strip s) with [] => True | c :: _ => isspace c = false end.
Proof. unfold strip. apply rstrip_last. Qed.

(** ** Splitting: the tokens of a string are those of its stripping *)

Lemma split_lstrip (s : str) : split (lstrip s) = split s.
Proof.
  unfold split. induction s as [|c s IH]; simpl; [reflexivity|].
  destruct (isspace c) eqn:E; [exact IH|]. simpl. rewrite E. reflexivity.
Qed.

Lemma split_from_rstrip (s : str) :
  forall word, split_from word (rstrip s) = split_from word s.
Proof.
  induction s as [|c s IH]; intros word; [reflexivity|].
  rewrite rstrip_cons. destruct (rstrip s) as [|x t] eqn:E.
  - cbn [split_from]. destruct (isspace c) eqn:Ec.
    + rewrite <- (IH []). simpl. destruct word; reflexivity.
    + rewrite <- (IH (c :: word)). simpl. rewrite Ec. reflexivity.
  - rewrite <- E in IH |- *. cbn [split_from].
    destruct (isspace c); [destruct word|]; rewrite ?IH; reflexivity.
Qed.

Lemma split_strip (s : str) : split (strip s) = split s.
Proof.
  unfold strip, split. rewrite split_from_rstrip. apply split_lstrip.
Qed.

End PyStrFacts.

(* ================================================================== *)
(** * The matcher computes the language of the pattern *)
(* ================================================================== *)

Module ReFacts.
Import PyStr Re.

Section Correctness.
Variable ignorecase : bool.

#[local] Abbreviation Matches := (Matches ignorecase).
#[local] Abbreviation deriv := (deriv ignorecase).
#[local] Abbreviation match_ := (match_ ignorecase).
#[local] Abbreviation search := (search ignorecase).

Lemma nullable_sound (r : regex) : nullable r = true -> Matches r [].
Proof.
  induction r; simpl; intros Hn; try discriminate.
  - constructor.
  - apply andb_true_iff in Hn as [H1 H2].
    change (@nil char) with (@nil char ++ []). constructor; auto.
  - apply orb_true_iff in Hn as [H1|H2]; [apply MAltL | apply MAltR]; auto.
  - constructor.
Qed.

Lemma nullable_complete (r : regex) (s : str) :
  Matches r s -> s = [] -> nullable r = true.
Proof.
  induction 1; intros Hs; simpl; try discriminate; try reflexivity.
  - apply app_eq_nil in Hs as [-> ->]. rewrite IHMatches1, IHMatches2; auto.
  - rewrite IHMatches; auto.
  - rewrite IHMatches; auto using orb_true_r.
Qed.

Lemma nullable_spec (r : regex) : nullable r = true <-> Matches r [].
Proof.
  split; [apply nullable_sound|]. intros H. exact (nullable_complete r [] H eq_refl).
Qed.

Lemma Matches_Empty (s : str) : ~ Matches Empty s.
Proof. inversion 1. Qed.

Lemma deriv_sound (c : char) (r : regex) :
  forall s, Matches (deriv c r) s -> Matches r (c :: s).
Proof.
  induction r; simpl; intros s Hm.
  - inversion Hm.
  - inversion Hm.
  - destruct (lit_matches ignorecase c0 c) eqn:E; inversion Hm; subst.
    now constructor.
  - destruct (isspace c) eqn:E; inversion Hm; subst. now constructor.
  - inversion Hm as [| | | | ? ? ? Hl | ? ? ? Hr | |]; subst.
    + inversion Hl; subst.
      change (c :: s1 ++ s2) with ((c :: s1) ++ s2). constructor; auto.
    + destruct (nullable r1) eqn:En; [|inversion Hr].
      change (c :: s) with ([] ++ c :: s).
      constructor; [now apply nullable_sound | auto].
  - inversion Hm; subst; [apply MAltL | apply MAltR]; auto.
  - inversion Hm; subst.
    change (c :: s1 ++ s2) with ((c :: s1) ++ s2). apply MStarS; auto.
Qed.

Lemma deriv_complete (c : char) (r : regex) (t : str) :
  Matches r t -> forall s, t = c :: s -> Matches (deriv c r) s.
Proof.
  induction 1 as [| l x Hl | x Hx | r1 r2 s1 s2 H1 IH1 H2 IH2
                  | r1 r2 s0 H0 IH0 | r1 r2 s0 H0 IH0 |
                  | r0 s1 s2 H1 IH1 H2 IH2];
    intros s Hs; simpl.
  - discriminate.
  - injection Hs as -> <-. rewrite Hl. constructor.
  - injection Hs as -> <-. rewrite Hx. constructor.
  - destruct s1 as [|y s1]; simpl in Hs.
    + apply MAltR. rewrite (nullable_complete r1 [] H1 eq_refl). auto.
    + injection Hs as -> <-. apply MAltL. constructor; auto.
  - apply MAltL; auto.
  - apply MAltR; auto.
  - discriminate.
  - destruct s1 as [|y s1]; simpl in Hs.
    + exact (IH2 _ Hs).
    + injection Hs as -> <-. constructor; auto.
Qed.

Lemma deriv_spec (c : char) (r : regex) (s : str) :
  Matches (deriv c r) s <-> Matches r (c :: s).
Proof.
  split; [apply deriv_sound|]. intros H. exact (deriv_complete c r (c :: s) H s eq_refl).
Qed.

(** [match_] finds a prefix in the language. *)
Lemma match_spec (s : str) : forall r,
  match_ r s = true <-> exists p q, s = p ++ q /\ Matches r p.
Proof.
  induction s as [|c s IH]; intros r; cbn [Re.match_].
  - rewrite orb_false_r, nullable_spec. split.
    + intros H. now exists [], [].
    + intros (p & q & Hs & Hm). symmetry in Hs.
      apply app_eq_nil in Hs as [-> _]. exact Hm.
  - rewrite orb_true_iff, nullable_spec, IH. split.
    + intros [H | (p & q & -> & Hm)].
      * now exists [], (c :: s).
      * exists (c :: p), q. split; [reflexivity|]. now apply deriv_spec.
    + intros (p & q & Hs & Hm). destruct p as [|x p]; [now left|].
      right. injection Hs as <- ->. exists p, q. split; [reflexivity|].
      now apply deriv_spec.
Qed.

(** [search] finds a factor in the language. *)
Lemma search_spec (r : regex) (s : str) :
  search r s = true <-> exists a p q, s = a ++ p ++ q /\ Matches r p.
Proof.
  induction s as [|c s IH]; cbn [Re.search].
  - rewrite orb_false_r, match_spec. split.
    + intros (p & q & Hs & Hm). now exists [], p, q.
    + intros (a & p & q & Hs & Hm). exists p, q. split; [|exact Hm].
      destruct a; [exact Hs | discriminate].
  - rewrite orb_true_iff, match_spec, IH. split.
    + intros [(p & q & Hs & Hm) | (a & p & q & -> & Hm)].
      * now exists [], p, q.
      * now exists (c :: a), p, q.
    + intros (a & p & q & Hs & Hm). destruct a as [|x a].
      * left. now exists p, q.
      * right. injection Hs as <- ->. now exists a, p, q.
Qed.

End Correctness.

End ReFacts.

(* ================================================================== *)
(** * Properties of the sanitizer and of the command filter *)
(* ================================================================== *)

Module UtilsProps.
Import PyStr PyStrFacts Re Utils Scenarios.

(** ** [sanitize_input] *)

Lemma firstn_In (A : Type) (n : nat) (l : list A) (x : A) :
  In x (firstn n l) -> In x l.
Proof.
  intros H. rewrite <- (firstn_skipn n l). apply in_or_app. now left.
Qed.

Lemma filter_fixed (A : Type) (f : A -> bool) (l : list A) :
  (forall x, In x l -> f x = true) -> filter f l = l.
Proof.
  induction l as [|a l IH]; simpl; intros H; [reflexivity|].
  rewrite (H a (or_introl eq_refl)). f_equal. apply IH. auto.
Qed.

Lemma sanitize_input_no_control (x : str) (c : char) :
  In c (sanitize_input x) -> is_control c = false.
Proof.
  unfold sanitize_input. intros H. apply strip_incl in H.
  assert (Hf : In c (filter (fun c => negb (is_control c)) x)).
  { destruct (1000 <? _); [exact (firstn_In _ _ _ _ H) | exact H]. }
  apply filter_In in Hf as [_ Hc]. now apply negb_true_iff.
Qed.

Lemma sanitize_input_length (x : str) : length (sanitize_input x) <= 1000.
Proof.
  unfold sanitize_input. etransitivity; [apply strip_length|].
  destruct (1000 <? _) eqn:E.
  - rewrite length_firstn. lia.
  - apply Nat.ltb_ge in E. exact E.
Qed.

Lemma sanitize_input_fixed (y : str) :
  (forall c, In c y -> is_control c = false) -> length y <= 1000 ->
  strip y = y -> sanitize_input y = y.
Proof.
  intros Hc Hl Hs. unfold sanitize_input.
  rewrite filter_fixed by (intros c Hin; rewrite (Hc c Hin); reflexivity).
  replace (1000 <? length y) with false; [exact Hs|].
  symmetry. now apply Nat.ltb_ge.
Qed.

(** C7.  [sanitize_input] is idempotent; its result has at most 1000 code
    points, and none of them is a control character: none lies in the C0
    range U+0000..U+001F nor in U+007F..U+009F (DEL and the C1 range). *)
Theorem sanitize_input_idempotent_bounded_clean (x : str) :
  sanitize_input (sanitize_input x) = sanitize_input x /\
  length (sanitize_input x) <= 1000 /\
  (forall c, In c (sanitize_input x) ->
     ~ (c <= 0x1F)%N /\ ~ (0x7F <= c <= 0x9F)%N).
Proof.
  split; [|split].
  - apply sanitize_input_fixed.
    + apply sanitize_input_no_control.
    + apply sanitize_input_length.
    + unfold sanitize_input. apply strip_idem.
  - apply sanitize_input_length.
  - intros c Hin. apply sanitize_input_no_control in Hin.
    unfold is_control in Hin.
    apply orb_false_iff in Hin as [H0 H1].
    apply N.leb_gt in H0.
    apply andb_false_iff in H1.
    split; [lia|]. intros [Hlo Hhi].
    destruct H1 as [H1|H1]; apply N.leb_gt in H1; lia.
Qed.

(** C10.  The result of [sanitize_input] neither begins nor ends with
    whitespace: after removing the control characters and truncating, the
    function strips; [sanitize_input " ls "] is ["ls"]. *)
Theorem sanitize_input_stripped (x : str) :
  match sanitize_input x with [] => True | c :: _ => isspace c = false end /\
  match rev (sanitize_input x) with [] => True | c :: _ => isspace c = false end /\
  sanitize_input (py " ls ") = py "ls".
Proof.
  split; [|split].
  - unfold sanitize_input. apply strip_head.
  - unfold sanitize_input. apply strip_last.
  - vm_compute. reflexivity.
Qed.

(** ** [validate_command] *)

Lemma chained_rm_stripped : strip chained_rm = chained_rm.
Proof. vm_compute. reflexivity. Qed.

Lemma chained_rm_dangerous :
  check_dangerous chained_rm dangerous_patterns
  = Some (false, Some (py "Command contains dangerous pattern")).
Proof. vm_compute. reflexivity. Qed.

(** The first pattern is the one that fires, on the factor ["; rm -rf"]. *)
Lemma chained_rm_factor :
  Matches true (Seq [lit ";"; Star Space; lit "rm"; Plus Space; lit "-rf"])
    (py "; rm -rf").
Proof.
  cbv [py map list_ascii_of_string].
  repeat apply ReFacts.deriv_sound.
  apply ReFacts.nullable_sound. vm_compute. reflexivity.
Qed.

Section FilterProps.
Context `{Lowering}.

Lemma check_blocked_none (command : str) (blocked_commands : list str) :
  check_blocked command blocked_commands = None <->
  forall blocked, In blocked blocked_commands ->
    contains (lower command) (lower blocked) = false.
Proof.
  induction blocked_commands as [|b l IH]; simpl.
  - split; [intros _ ? [] | reflexivity].
  - destruct (contains (lower command) (lower b)) eqn:E.
    + split; [discriminate|]. intros Hall.
      rewrite (Hall b (or_introl eq_refl)) in E. discriminate.
    + rewrite IH. split.
      * intros Hall x [<-|Hx]; auto.
      * intros Hall x Hx. apply Hall. now right.
Qed.

Lemma check_blocked_some (command : str) (blocked_commands : list str)
  (v : verdict) :
  check_blocked command blocked_commands = Some v ->
  exists blocked, In blocked blocked_commands /\
    contains (lower command) (lower blocked) = true /\
    v = (false, Some (py "Command contains blocked pattern: " ++ blocked)).
Proof.
  induction blocked_commands as [|b l IH]; simpl; [discriminate|].
  destruct (contains (lower command) (lower b)) eqn:E.
  - intros [= <-]. exists b. auto.
  - intros Hv. destruct (IH Hv) as (x & Hx & Hc & ->). exists x. auto.
Qed.

(** C5, as amended.  ["foo; rm -rf /tmp"] is rejected whatever the blocklist
    and the allow-list are.  When no blocklist entry occurs in it, the
    dangerous-pattern rule rejects it, with the generic reason; when one
    does, the blocklist rule comes first and the reason cites an entry of
    the blocklist that occurs in it. *)
Theorem chained_rm_rejected (blocked_commands : list str)
  (allowed_prefixes : option (list str)) :
  fst (validate_command chained_rm blocked_commands allowed_prefixes) = false /\
  ((forall blocked, In blocked blocked_commands ->
      contains (lower chained_rm) (lower blocked) = false) ->
   validate_command chained_rm blocked_commands allowed_prefixes
   = (false, Some (py "Command contains dangerous pattern"))) /\
  ((exists blocked, In blocked blocked_commands /\
      contains (lower chained_rm) (lower blocked) = true) ->
   exists blocked, In blocked blocked_commands /\
     contains (lower chained_rm) (lower blocked) = true /\
     validate_command chained_rm blocked_commands allowed_prefixes
     = (false, Some (py "Command contains blocked pattern: " ++ blocked))).
Proof.
  unfold validate_command. rewrite chained_rm_stripped, chained_rm_dangerous.
  destruct (check_blocked chained_rm blocked_commands) as [v|] eqn:E.
  - apply check_blocked_some in E as Hv. destruct Hv as (b & Hb & Hc & ->).
    split; [reflexivity|]. split.
    + intros Hall. rewrite (Hall b Hb) in Hc. discriminate.
    + intros _. exists b. auto.
  - split; [reflexivity|]. split; [reflexivity|].
    intros (b & Hb & Hc).
    rewrite (proj1 (check_blocked_none _ _) E b Hb) in Hc. discriminate.
Qed.

(** Without a token, or with an empty allow-list, the allow-list block
    checks nothing. *)
Lemma allow_list_skipped (command : str) (blocked_commands : list str)
  (allowed_prefixes : option (list str)) :
  check_blocked (strip command) blocked_commands = None ->
  check_dangerous (strip command) dangerous_patterns = None ->
  allowed_prefixes = None \/ allowed_prefixes = Some [] \/ split command = [] ->
  validate_command command blocked_commands allowed_prefixes = (true, None).
Proof.
  intros Hb Hd Hskip. unfold validate_command. rewrite Hb, Hd.
  unfold check_allowed. rewrite split_strip.
  destruct Hskip as [-> | [-> | ->]]; try reflexivity.
  destruct allowed_prefixes as [[|p l]|]; reflexivity.
Qed.

(** C6, as amended.  Take a command that passes the blocklist and the
    dangerous-pattern checks, and an allow-list that is supplied.  When the
    allow-list is not empty and the command has a first token: if the
    command is accepted, the token starts, case ignored, with one of the
    prefixes; and if it starts, case ignored, with none of them, the command
    is rejected with the reason that names the allowed set.  When the
    allow-list is empty or the command has no token, the rule is not applied
    and the command is accepted.  Case is ignored as the blocklist test
    ignores it, by lower-casing both sides; of [lower] it is assumed that an
    allowed prefix which lower-cased text starts with is in lower case. *)
Theorem allow_list_rule (command : str) (blocked_commands prefixes : list str) :
  (forall s prefix, In prefix prefixes ->
     startswith (lower s) prefix = true -> lower prefix = prefix) ->
  check_blocked (strip command) blocked_commands = None ->
  check_dangerous (strip command) dangerous_patterns = None ->
  (forall first rest,
     prefixes <> [] ->
     split command = first :: rest ->
     (validate_command command blocked_commands (Some prefixes) = (true, None) ->
      exists prefix,
        In prefix prefixes /\ startswith (lower first) (lower prefix) = true) /\
     ((forall prefix, In prefix prefixes ->
         startswith (lower first) (lower prefix) = false) ->
      validate_command command blocked_commands (Some prefixes)
      = (false,
         Some (py "Command must start with one of: "
                 ++ join (py ", ") prefixes)))) /\
  (prefixes = [] \/ split command = [] ->
   validate_command command blocked_commands (Some prefixes) = (true, None)).
Proof.
  intros Hlower Hb Hd. split.
  - intros first rest Hp Hs.
    assert (Hv : validate_command command blocked_commands (Some prefixes) =
                 if existsb (fun prefix => startswith (lower first) prefix) prefixes
                 then (true, None)
                 else (false,
                       Some (py "Command must start with one of: "
                               ++ join (py ", ") prefixes))).
    { unfold validate_command. rewrite Hb, Hd.
      unfold check_allowed. rewrite split_strip, Hs.
      destruct prefixes as [|p l]; [contradiction|].
      destruct (existsb _ (p :: l)); reflexivity. }
    rewrite Hv.
    destruct (existsb _ prefixes) eqn:E.
    + apply existsb_exists in E as (p & Hin & Hsw).
      assert (Hci : startswith (lower first) (lower p) = true)
        by (rewrite (Hlower _ _ Hin Hsw); exact Hsw).
      split.
      * intros _. exists p. auto.
      * intros Hnone. rewrite (Hnone p Hin) in Hci. discriminate.
    + split; [discriminate | reflexivity].
  - intros Hskip. apply (allow_list_skipped command blocked_commands _ Hb Hd).
    destruct Hskip as [-> | Hs]; auto.
Qed.

End FilterProps.

(** C5, witness: a blocklist none of whose entries occurs in the command. *)
Lemma chained_rm_rejected_witness :
  validate_command chained_rm [py "mkfs"; py "fdisk"] None
  = (false, Some (py "Command contains dangerous pattern")).
Proof.
  apply (proj1 (proj2 (chained_rm_rejected (H := latin1) [py "mkfs"; py "fdisk"] None))).
  intros blocked [<-|[<-|[]]]; vm_compute; reflexivity.
Defined.

(** C5, counterexample: with the blocklist of [config.py], whose first entry
    ["rm -rf /"] occurs in the command, the blocklist rule rejects it and
    the reason shows the entry. *)
Lemma chained_rm_blocklist_first :
  validate_command chained_rm Config.BLOCKED_COMMANDS None
  = (false, Some (py "Command contains blocked pattern: rm -rf /")) /\
  validate_command chained_rm Config.BLOCKED_COMMANDS None
  <> (false, Some (py "Command contains dangerous pattern")).
Proof. split; [vm_compute; reflexivity | vm_compute; discriminate]. Qed.

(** C6, witness: ["whoami"] against the lists of [config.py], whose
    prefixes are in lower case, and ["ls"] against an empty allow-list;
    under the lower-casing of Latin-1. *)
Lemma allow_list_rule_witness :
  validate_command (py "whoami") Config.BLOCKED_COMMANDS
    (Some Config.ALLOWED_COMMAND_PREFIXES)
  = (false,
     Some (py "Command must start with one of: ls, cd, pwd, cat, grep, find, ps, top, df, du, free, uptime")) /\
  validate_command (py "ls") Config.BLOCKED_COMMANDS (Some []) = (true, None).
Proof.
  split.
  - apply (fun Hlower =>
             proj1 (allow_list_rule (H := latin1) (py "whoami")
                      Config.BLOCKED_COMMANDS Config.ALLOWED_COMMAND_PREFIXES
                      Hlower eq_refl eq_refl)
               (py "whoami") []).
    + intros s prefix Hin _.
      repeat (destruct Hin as [<-|Hin]; [reflexivity|]).
      destruct Hin.
    + discriminate.
    + vm_compute; reflexivity.
    + intros prefix Hin.
      repeat (destruct Hin as [<-|Hin]; [vm_compute; reflexivity|]).
      destruct Hin.
  - apply (fun Hlower =>
             proj2 (allow_list_rule (H := latin1) (py "ls")
                      Config.BLOCKED_COMMANDS [] Hlower eq_refl eq_refl)).
    + intros s prefix [].
    + left. reflexivity.
Defined.

(** C6, counterexample: an allow-list that is supplied and empty allows
    ["ls"], though the token starts with none of its prefixes; and the
    command with no token is allowed under the allow-list of [config.py]. *)
Lemma allow_list_not_applied :
  validate_command (py "ls") [] (Some []) = (true, None) /\
  validate_command [] [] (Some Config.ALLOWED_COMMAND_PREFIXES) = (true, None).
Proof. split; vm_compute; reflexivity. Qed.

(** The filter on the commands of section 8 of the specification, and on
    the edges of the allow-list block: the token is lower-cased and the
    prefix is not, so that a prefix with a capital matches no token. *)
Example filter_scenarios :
  validate_command (py "rm -rf /") [py "rm -rf /"] None
  = (false, Some (py "Command contains blocked pattern: rm -rf /")) /\
  validate_command (py "ls -la") [] None = (true, None) /\
  validate_command (py "  LS -la") Config.BLOCKED_COMMANDS
    (Some Config.ALLOWED_COMMAND_PREFIXES) = (true, None) /\
  validate_command (py "LS") [] (Some [py "LS"])
  = (false, Some (py "Command must start with one of: LS")).
Proof. repeat split; vm_compute; reflexivity. Qed.

End UtilsProps.

(* ================================================================== *)
(** * Facts about the [csv] reader *)
(* ================================================================== *)

Module CsvFacts.
Import PyStr Csv Servers Invariants.

Lemma fold_feed_raised (s : str) (rows : list (list str)) :
  fold_left feed s (Raised rows) = Raised rows.
Proof. induction s as [|c s IH]; [reflexivity | exact IH]. Qed.

Lemma needs_quotes_false (c : char) :
  needs_quotes c = false ->
  N.eqb c delimiter = false /\ N.eqb c quotechar = false
  /\ is_newline c = false /\ N.eqb c 10 = false.
Proof.
  unfold needs_quotes, is_newline, lineterminator. cbn [existsb].
  destruct (N.eqb c delimiter), (N.eqb c quotechar), (N.eqb c 13),
    (N.eqb c 10); cbn; intros; try discriminate; auto.
Qed.

Lemma fits_nil : fits [] = true.
Proof. reflexivity. Qed.

#[local] Abbreviation parser F s g :=
  {| rd_fields := F; rd_state := s; rd_field := g |}.

(** Single steps of the reader. *)

Lemma feed_in_field (F : list str) (g : str) (rows : list (list str))
  (partial : bool) (c : char) :
  needs_quotes c = false ->
  feed (Reading rows (parser F IN_FIELD g) partial) c
  = if full g then Raised rows
    else Reading rows (parser F IN_FIELD (g ++ [c])) true.
Proof.
  intros Hc. apply needs_quotes_false in Hc as (Hd & _ & Hn & Hl).
  unfold feed, parse_process_char, parse_add_char, full.
  cbn [rd_state rd_field rd_fields]. rewrite Hn, Hd.
  destruct (field_size_limit <=? _)%N; [reflexivity|]. now rewrite Hl.
Qed.

Lemma feed_in_field_delimiter (F : list str) (g : str)
  (rows : list (list str)) (partial : bool) :
  feed (Reading rows (parser F IN_FIELD g) partial) delimiter
  = Reading rows (parser (F ++ [g]) START_FIELD []) true.
Proof. reflexivity. Qed.

Lemma feed_in_field_newline (F : list str) (g : str)
  (rows : list (list str)) (partial : bool) :
  feed (Reading rows (parser F IN_FIELD g) partial) 10%N
  = Reading (rows ++ [F ++ [g]]) parse_reset false.
Proof. reflexivity. Qed.

Lemma feed_in_quoted (F : list str) (g : str) (rows : list (list str))
  (partial : bool) (c : char) :
  N.eqb c quotechar = false ->
  exists partial',
    feed (Reading rows (parser F IN_QUOTED_FIELD g) partial) c
    = if full g then Raised rows
      else Reading rows (parser F IN_QUOTED_FIELD (g ++ [c])) partial'.
Proof.
  intros Hc. unfold feed, parse_process_char, parse_add_char, full.
  cbn [rd_state rd_field rd_fields]. rewrite Hc.
  destruct (field_size_limit <=? _)%N; [exists true; reflexivity|].
  destruct (N.eqb c 10); eexists; reflexivity.
Qed.

Lemma feed_in_quoted_quote (F : list str) (g : str) (rows : list (list str))
  (partial : bool) :
  feed (Reading rows (parser F IN_QUOTED_FIELD g) partial) quotechar
  = Reading rows (parser F QUOTE_IN_QUOTED_FIELD g) true.
Proof. reflexivity. Qed.

Lemma feed_quote_quote (F : list str) (g : str) (rows : list (list str))
  (partial : bool) :
  feed (Reading rows (parser F QUOTE_IN_QUOTED_FIELD g) partial) quotechar
  = if full g then Raised rows
    else Reading rows (parser F IN_QUOTED_FIELD (g ++ [quotechar])) true.
Proof.
  unfold feed, parse_process_char, parse_add_char, full.
  cbn [rd_state rd_field rd_fields].
  change (N.eqb quotechar quotechar) with true. cbv iota.
  destruct (field_size_limit <=? _)%N; reflexivity.
Qed.

Lemma feed_quote_delimiter (F : list str) (g : str) (rows : list (list str))
  (partial : bool) :
  feed (Reading rows (parser F QUOTE_IN_QUOTED_FIELD g) partial) delimiter
  = Reading rows (parser (F ++ [g]) START_FIELD []) true.
Proof. reflexivity. Qed.

Lemma feed_quote_newline (F : list str) (g : str) (rows : list (list str))
  (partial : bool) :
  feed (Reading rows (parser F QUOTE_IN_QUOTED_FIELD g) partial) 10%N
  = Reading (rows ++ [F ++ [g]]) parse_reset false.
Proof. reflexivity. Qed.

Lemma feed_start_field (F : list str) (rows : list (list str))
  (partial : bool) (c : char) :
  needs_quotes c = false ->
  feed (Reading rows (parser F START_FIELD []) partial) c
  = Reading rows (parser F IN_FIELD [c]) true.
Proof.
  intros Hc. apply needs_quotes_false in Hc as (Hd & Hq & Hn & Hl).
  unfold feed, parse_process_char, start_field, parse_add_char.
  cbn [rd_state rd_field rd_fields]. rewrite Hn, Hq, Hd.
  cbn. now rewrite Hl.
Qed.

Lemma feed_start_field_quote (F : list str) (rows : list (list str))
  (partial : bool) :
  feed (Reading rows (parser F START_FIELD []) partial) quotechar
  = Reading rows (parser F IN_QUOTED_FIELD []) true.
Proof. reflexivity. Qed.

Lemma feed_start_field_delimiter (F : list str) (rows : list (list str))
  (partial : bool) :
  feed (Reading rows (parser F START_FIELD []) partial) delimiter
  = Reading rows (parser (F ++ [[]]) START_FIELD []) true.
Proof. reflexivity. Qed.

Lemma feed_start_field_newline (F : list str) (rows : list (list str))
  (partial : bool) :
  feed (Reading rows (parser F START_FIELD []) partial) 10%N
  = Reading (rows ++ [F ++ [[]]]) parse_reset false.
Proof. reflexivity. Qed.

(** At the start of a record, a character that is no line break is the
    start of a field. *)
Lemma feed_start_record (rows : list (list str)) (partial : bool) (c : char) :
  is_newline c = false ->
  feed (Reading rows parse_reset partial) c
  = feed (Reading rows (parser [] START_FIELD []) partial) c.
Proof.
  intros Hn. unfold feed, parse_process_char.
  cbn [rd_state parse_reset]. rewrite Hn. reflexivity.
Qed.

Lemma feed_start_record_newline (rows : list (list str)) (partial : bool) :
  feed (Reading rows parse_reset partial) 10%N
  = Reading (rows ++ [[]]) parse_reset false.
Proof. reflexivity. Qed.

Lemma fits_add (g : str) (c : char) : full g = false -> fits (g ++ [c]) = true.
Proof.
  unfold fits, full. rewrite length_app. cbn [length]. intros H.
  apply N.leb_gt in H. apply N.leb_le. lia.
Qed.

Lemma fits_full (g f : str) (c : char) :
  full g = true -> fits (g ++ c :: f) = false.
Proof.
  unfold fits, full. rewrite length_app. cbn [length]. intros H.
  apply N.leb_le in H. apply N.leb_gt. lia.
Qed.

(** An unquoted field under way. *)
Lemma in_field_run (f : str) : forall g F rows rest,
  existsb needs_quotes f = false -> fits g = true ->
  fold_left feed (f ++ rest) (Reading rows (parser F IN_FIELD g) true)
  = if fits (g ++ f)
    then fold_left feed rest (Reading rows (parser F IN_FIELD (g ++ f)) true)
    else Raised rows.
Proof.
  induction f as [|c f IH]; intros g F rows rest Hq Hg.
  - rewrite app_nil_r, Hg. reflexivity.
  - cbn [existsb] in Hq. apply orb_false_iff in Hq as [Hc Hq].
    cbn [app fold_left]. rewrite (feed_in_field _ _ _ _ _ Hc).
    destruct (full g) eqn:E.
    + rewrite fold_feed_raised, (fits_full _ _ _ E). reflexivity.
    + rewrite (IH _ _ _ _ Hq (fits_add _ c E)), <- app_assoc. reflexivity.
Qed.

(** A quoted field under way, up to its closing quote. *)
Lemma in_quoted_run (f : str) : forall g F rows rest partial,
  fits g = true ->
  fold_left feed (join_append_data f ++ quotechar :: rest)
    (Reading rows (parser F IN_QUOTED_FIELD g) partial)
  = if fits (g ++ f)
    then fold_left feed rest
           (Reading rows (parser F QUOTE_IN_QUOTED_FIELD (g ++ f)) true)
    else Raised rows.
Proof.
  induction f as [|c f IH]; intros g F rows rest partial Hg.
  - rewrite app_nil_r, Hg. reflexivity.
  - cbn [join_append_data]. destruct (N.eqb c quotechar) eqn:Ec.
    + apply N.eqb_eq in Ec. subst c.
      cbn [app fold_left].
      rewrite feed_in_quoted_quote, feed_quote_quote.
      destruct (full g) eqn:E.
      * rewrite fold_feed_raised, (fits_full _ _ _ E). reflexivity.
      * rewrite (IH _ _ _ _ _ (fits_add _ quotechar E)), <- app_assoc.
        reflexivity.
    + cbn [app fold_left].
      destruct (feed_in_quoted F g rows partial c Ec) as [p ->].
      destruct (full g) eqn:E.
      * rewrite fold_feed_raised, (fits_full _ _ _ E). reflexivity.
      * rewrite (IH _ _ _ _ _ (fits_add _ c E)), <- app_assoc. reflexivity.
Qed.

(** A field as the writer put it down, from the start of the field to
    the delimiter after it. *)
Lemma read_field (f : str) (F : list str) (rows : list (list str))
  (rest : str) (partial : bool) :
  fold_left feed (join_append f false ++ delimiter :: rest)
    (Reading rows (parser F START_FIELD []) partial)
  = if fits f
    then fold_left feed rest (Reading rows (parser (F ++ [f]) START_FIELD []) true)
    else Raised rows.
Proof.
  unfold join_append. cbn [orb].
  destruct (existsb needs_quotes f) eqn:Hq.
  - cbn [app fold_left]. rewrite feed_start_field_quote, <- app_assoc.
    cbn [app]. rewrite (in_quoted_run f [] F rows _ true fits_nil).
    cbn [app]. destruct (fits f); [|reflexivity].
    cbn [fold_left]. rewrite feed_quote_delimiter. reflexivity.
  - destruct f as [|c f].
    + cbn [app fold_left]. rewrite feed_start_field_delimiter. reflexivity.
    + cbn [existsb] in Hq. apply orb_false_iff in Hq as [Hc Hq].
      cbn [app fold_left]. rewrite (feed_start_field _ _ _ _ Hc).
      rewrite (in_field_run f [c] F rows _ Hq eq_refl).
      cbn [app]. destruct (fits (c :: f)); [|reflexivity].
      cbn [fold_left]. rewrite feed_in_field_delimiter. reflexivity.
Qed.

(** The last field of a line, and the end of the line. *)
Lemma read_last_field (f : str) (F : list str) (rows : list (list str))
  (rest : str) (partial : bool) :
  fold_left feed (join_append f false ++ 10%N :: rest)
    (Reading rows (parser F START_FIELD []) partial)
  = if fits f
    then fold_left feed rest (Reading (rows ++ [F ++ [f]]) parse_reset false)
    else Raised rows.
Proof.
  unfold join_append. cbn [orb].
  destruct (existsb needs_quotes f) eqn:Hq.
  - cbn [app fold_left]. rewrite feed_start_field_quote, <- app_assoc.
    cbn [app]. rewrite (in_quoted_run f [] F rows _ true fits_nil).
    cbn [app]. destruct (fits f); [|reflexivity].
    cbn [fold_left]. rewrite feed_quote_newline. reflexivity.
  - destruct f as [|c f].
    + cbn [app fold_left]. rewrite feed_start_field_newline. reflexivity.
    + cbn [existsb] in Hq. apply orb_false_iff in Hq as [Hc Hq].
      cbn [app fold_left]. rewrite (feed_start_field _ _ _ _ Hc).
      rewrite (in_field_run f [c] F rows _ Hq eq_refl).
      cbn [app]. destruct (fits (c :: f)); [|reflexivity].
      cbn [fold_left]. rewrite feed_in_field_newline. reflexivity.
Qed.

(** The fields of a line, from the start of a field. *)
Lemma read_fields (r : list str) : forall F rows rest partial,
  r <> [] ->
  fold_left feed (join_fields r ++ 10%N :: rest)
    (Reading rows (parser F START_FIELD []) partial)
  = if forallb fits r
    then fold_left feed rest (Reading (rows ++ [F ++ r]) parse_reset false)
    else Raised rows.
Proof.
  induction r as [|f r IH]; intros F rows rest partial Hr; [contradiction|].
  destruct r as [|f' r].
  - cbn [join_fields forallb]. rewrite andb_true_r. apply read_last_field.
  - change (join_fields (f :: f' :: r))
      with (join_append f false ++ delimiter :: join_fields (f' :: r)).
    rewrite <- app_assoc. cbn [app]. rewrite read_field.
    change (forallb fits (f :: f' :: r))
      with (fits f && forallb fits (f' :: r)).
    destruct (fits f); [|reflexivity]. cbn [andb].
    rewrite IH by discriminate. rewrite <- app_assoc. reflexivity.
Qed.

(** What a line of the writer starts with. *)
Lemma join_fields_head (r : list str) (rest : str) :
  r <> [] -> r <> [[]] ->
  exists c t, join_fields r ++ rest = c :: t /\ is_newline c = false.
Proof.
  intros Hr Hr'. destruct r as [|f r]; [contradiction|].
  assert (Hf : forall tail, (f = [] -> exists t, tail = delimiter :: t) ->
                 exists c t, join_append f false ++ tail = c :: t
                             /\ is_newline c = false).
  { intros tail Ht. unfold join_append. cbn [orb].
    destruct (existsb needs_quotes f) eqn:Hq.
    - eexists. eexists. split; [reflexivity|reflexivity].
    - destruct f as [|c f].
      + destruct (Ht eq_refl) as [t ->]. eexists. eexists.
        split; reflexivity.
      + cbn [existsb] in Hq. apply orb_false_iff in Hq as [Hc _].
        apply needs_quotes_false in Hc as (_ & _ & Hn & _).
        eexists. eexists. split; [reflexivity | exact Hn]. }
  destruct r as [|f' r].
  - cbn [join_fields]. apply Hf. intros ->. contradiction.
  - change (join_fields (f :: f' :: r))
      with (join_append f false ++ delimiter :: join_fields (f' :: r)).
    rewrite <- app_assoc. apply Hf. intros _. eexists. reflexivity.
Qed.

(** A line of the writer, read from the start of a record: its record is
    yielded, unless a field is over the limit. *)
Lemma read_record (r : list str) (rows : list (list str)) (rest : str) :
  fold_left feed (join_record r ++ 10%N :: rest) (Reading rows parse_reset false)
  = if forallb fits r
    then fold_left feed rest (Reading (rows ++ [r]) parse_reset false)
    else Raised rows.
Proof.
  destruct r as [|f r].
  - cbn [join_record join_fields app fold_left forallb].
    rewrite feed_start_record_newline. reflexivity.
  - assert (Hgen : f :: r <> [[]] ->
              fold_left feed (join_fields (f :: r) ++ 10%N :: rest)
                (Reading rows parse_reset false)
              = if forallb fits (f :: r)
                then fold_left feed rest
                       (Reading (rows ++ [f :: r]) parse_reset false)
                else Raised rows).
    { intros Hne.
      destruct (join_fields_head (f :: r) (10%N :: rest)) as (c & t & Et & Hn);
        [discriminate | exact Hne |].
      pose proof (read_fields (f :: r) [] rows rest false) as H.
      cbn [app] in H. rewrite <- H by discriminate.
      rewrite Et. cbn [fold_left]. now rewrite feed_start_record. }
    destruct f as [|c f]; [destruct r as [|f' r]|].
    + reflexivity.
    + apply Hgen. discriminate.
    + apply Hgen. discriminate.
Qed.

End CsvFacts.

(* ================================================================== *)
(** * Reading what the writer wrote *)
(* ================================================================== *)

Module ReaderFacts.
Import PyStr Csv Servers Invariants CsvFacts.

(** ** Newline translation and the writer *)

Lemma universal_newlines_cons (c : char) (s : str) :
  N.eqb c 13 = false -> universal_newlines (c :: s) = c :: universal_newlines s.
Proof. intros H. cbn [universal_newlines]. now rewrite H. Qed.

Lemma universal_newlines_append (a b : str) :
  match b with d :: _ => N.eqb d 10 = false | [] => True end ->
  universal_newlines (a ++ b) = universal_newlines a ++ universal_newlines b.
Proof.
  intros Hb. remember (length a) as n eqn:En.
  assert (Hl : length a <= n) by lia. clear En. revert a Hl.
  induction n as [|n IH]; intros [|c a] Hl; try reflexivity;
    cbn [length] in Hl; try lia.
  cbn [app universal_newlines]. destruct (N.eqb c 13).
  - cbn [app]. f_equal. destruct a as [|d a].
    + cbn [app]. destruct b as [|d b]; [reflexivity|]. now rewrite Hb.
    + cbn [app length] in *. destruct (N.eqb d 10).
      * apply IH. lia.
      * apply (IH (d :: a)). cbn [length]. lia.
  - cbn [app]. f_equal. apply IH. lia.
Qed.

(** Text the writer leaves unquoted holds no line break. *)
Lemma universal_newlines_plain (a b : str) :
  existsb needs_quotes a = false ->
  universal_newlines (a ++ b) = a ++ universal_newlines b.
Proof.
  induction a as [|c a IH]; intros Hq; [reflexivity|].
  cbn [existsb] in Hq. apply orb_false_iff in Hq as [Hc Hq].
  apply needs_quotes_false in Hc as (_ & _ & Hn & _).
  unfold is_newline in Hn. apply orb_false_iff in Hn as [_ Hn].
  cbn [app]. rewrite (universal_newlines_cons _ _ Hn), (IH Hq). reflexivity.
Qed.

Lemma needs_quotes_universal (n : nat) : forall f,
  length f <= n ->
  existsb needs_quotes (universal_newlines f) = existsb needs_quotes f.
Proof.
  induction n as [|n IH]; intros [|c f] Hl; try reflexivity;
    cbn [length] in Hl; try lia.
  cbn [universal_newlines]. destruct (N.eqb c 13) eqn:Ec.
  - apply N.eqb_eq in Ec. subst c. reflexivity.
  - cbn [existsb]. rewrite IH by lia. reflexivity.
Qed.

Lemma quoted_universal (n : nat) : forall f tail,
  length f <= n ->
  universal_newlines (join_append_data f ++ quotechar :: tail)
  = join_append_data (universal_newlines f) ++ quotechar :: universal_newlines tail.
Proof.
  induction n as [|n IH]; intros [|c f] tail Hl; try reflexivity;
    cbn [length] in Hl; try lia.
  destruct (N.eqb c 13) eqn:Ec.
  - apply N.eqb_eq in Ec. subst c.
    destruct f as [|d f]; [reflexivity|]. cbn [length] in Hl.
    destruct (N.eqb d 10) eqn:Ed.
    + apply N.eqb_eq in Ed. subst d.
      change (join_append_data (13%N :: 10%N :: f) ++ quotechar :: tail)
        with (13%N :: 10%N :: (join_append_data f ++ quotechar :: tail)).
      change (universal_newlines (13%N :: 10%N :: f))
        with (10%N :: universal_newlines f).
      change (universal_newlines
                (13%N :: 10%N :: (join_append_data f ++ quotechar :: tail)))
        with (10%N :: universal_newlines
                        (join_append_data f ++ quotechar :: tail)).
      rewrite IH by lia. reflexivity.
    + assert (E1 : universal_newlines (13%N :: d :: f)
                   = 10%N :: universal_newlines (d :: f)).
      { cbn [universal_newlines]. change (N.eqb 13 13) with true. cbv iota.
        rewrite Ed. reflexivity. }
      assert (E2 : universal_newlines
                     (join_append_data (13%N :: d :: f) ++ quotechar :: tail)
                   = 10%N :: universal_newlines
                               (join_append_data (d :: f) ++ quotechar :: tail)).
      { change (join_append_data (13%N :: d :: f))
          with (13%N :: join_append_data (d :: f)).
        cbn [join_append_data]. destruct (N.eqb d quotechar) eqn:Eq.
        - apply N.eqb_eq in Eq. subst d. reflexivity.
        - cbn [app universal_newlines]. change (N.eqb 13 13) with true.
          cbv iota. rewrite Ed. reflexivity. }
      etransitivity; [exact E2|].
      etransitivity;
        [apply f_equal; apply (IH (d :: f)); cbn [length]; lia|].
      symmetry.
      etransitivity;
        [apply (f_equal (fun x => join_append_data x
                                   ++ quotechar :: universal_newlines tail));
         exact E1|].
      reflexivity.
  - cbn [join_append_data]. rewrite (universal_newlines_cons _ _ Ec).
    cbn [join_append_data]. destruct (N.eqb c quotechar) eqn:Eq.
    + apply N.eqb_eq in Eq. subst c. cbn [app].
      rewrite !universal_newlines_cons by reflexivity.
      rewrite IH by lia. reflexivity.
    + cbn [app]. rewrite (universal_newlines_cons _ _ Ec), IH by lia.
      reflexivity.
Qed.

Lemma join_append_universal (f : str) (quoted : bool) (tail : str) :
  universal_newlines (join_append f quoted ++ tail)
  = join_append (universal_newlines f) quoted ++ universal_newlines tail.
Proof.
  unfold join_append.
  rewrite (needs_quotes_universal (length f) f (le_n _)).
  destruct (quoted || existsb needs_quotes f) eqn:Hq.
  - cbn [app]. rewrite universal_newlines_cons by reflexivity.
    rewrite <- !app_assoc. cbn [app].
    rewrite (quoted_universal (length f) f tail (le_n _)). reflexivity.
  - apply orb_false_iff in Hq as [_ Hq].
    rewrite (universal_newlines_plain _ _ Hq).
    pose proof (universal_newlines_plain f [] Hq) as Hf.
    rewrite !app_nil_r in Hf. rewrite Hf. reflexivity.
Qed.

Lemma join_fields_universal (r : list str) (rest : str) :
  universal_newlines (join_fields r ++ lineterminator ++ rest)
  = join_fields (map universal_newlines r) ++ 10%N :: universal_newlines rest.
Proof.
  induction r as [|f r IH]; [reflexivity|]. destruct r as [|f' r].
  - cbn [join_fields map]. rewrite join_append_universal. reflexivity.
  - change (join_fields (f :: f' :: r))
      with (join_append f false ++ delimiter :: join_fields (f' :: r)).
    change (join_fields (map universal_newlines (f :: f' :: r)))
      with (join_append (universal_newlines f) false
              ++ delimiter :: join_fields (map universal_newlines (f' :: r))).
    rewrite <- !app_assoc, join_append_universal. cbn [app].
    rewrite universal_newlines_cons by reflexivity.
    f_equal. f_equal. exact IH.
Qed.

Lemma join_record_fields (r : list str) :
  r <> [[]] -> join_record r = join_fields r.
Proof. destruct r as [|[|c f] [|f' r]]; try reflexivity. contradiction. Qed.

(** What the reader is given of a line of the writer: the record with its
    fields translated, and a line feed. *)
Lemma writerow_universal (r : list str) (rest : str) :
  universal_newlines (writerow r ++ rest)
  = join_record (map universal_newlines r) ++ 10%N :: universal_newlines rest.
Proof.
  unfold writerow. rewrite <- app_assoc.
  assert (Hcase : r = [[]] \/ r <> [[]]).
  { destruct r as [|[|c f] [|f' r]];
      (left; reflexivity) || (right; discriminate). }
  destruct Hcase as [-> | Hne]; [reflexivity|].
  rewrite !join_record_fields; [apply join_fields_universal | | exact Hne].
  destruct r as [|[|c f] [|f' r]]; try discriminate; [contradiction|].
  cbn [map universal_newlines]. destruct (N.eqb c 13); discriminate.
Qed.

Lemma writerow_head (r : list str) (rest : str) :
  match writerow r ++ rest with
  | d :: _ => N.eqb d 10 = false
  | [] => True
  end.
Proof.
  unfold writerow. rewrite <- app_assoc.
  destruct r as [|f r]; [reflexivity|].
  assert (Hgen : f :: r <> [[]] ->
            match join_fields (f :: r) ++ lineterminator ++ rest with
            | d :: _ => N.eqb d 10 = false
            | [] => True
            end).
  { intros Hne.
    destruct (join_fields_head (f :: r) (lineterminator ++ rest))
      as (c & t & -> & Hn); [discriminate | exact Hne |].
    unfold is_newline in Hn. now apply orb_false_iff in Hn as [Hn _]. }
  destruct f as [|c f]; [destruct r as [|f' r]|].
  - reflexivity.
  - apply Hgen. discriminate.
  - apply Hgen. discriminate.
Qed.

Lemma writerows_head (rs : list (list str)) :
  match writerows rs with
  | d :: _ => N.eqb d 10 = false
  | [] => True
  end.
Proof.
  destruct rs as [|r rs]; [exact I|].
  change (writerows (r :: rs)) with (writerow r ++ writerows rs).
  apply writerow_head.
Qed.

(** ** Reading what the writer wrote *)

Lemma read_writerows (rs : list (list str)) : forall rows,
  fold_left feed (universal_newlines (writerows rs)) (Reading rows parse_reset false)
  = read_written rows (map (map universal_newlines) rs).
Proof.
  induction rs as [|r rs IH]; intros rows; [reflexivity|].
  change (writerows (r :: rs)) with (writerow r ++ writerows rs).
  rewrite writerow_universal, read_record. cbn [map read_written].
  destruct (forallb fits (map universal_newlines r)); [apply IH | reflexivity].
Qed.

Lemma read_to_end_app (content : str) (rs : list (list str)) :
  read_to_end (content ++ writerows rs)
  = fold_left feed (universal_newlines (writerows rs)) (read_to_end content).
Proof.
  unfold read_to_end.
  rewrite (universal_newlines_append _ _ (writerows_head rs)).
  apply fold_left_app.
Qed.

Lemma read_written_fits (rs : list (list str)) : forall rows,
  Forall (fun r => forallb fits r = true) rs ->
  read_written rows rs = Reading (rows ++ rs) parse_reset false.
Proof.
  induction rs as [|r rs IH]; intros rows Hrs; cbn [read_written].
  - now rewrite app_nil_r.
  - inversion Hrs as [|? ? Hr Hrest]; subst. rewrite Hr, (IH _ Hrest).
    rewrite <- app_assoc. reflexivity.
Qed.

(** ** What the reader yields *)

Lemma parse_save_field_ok (Q : char -> Prop) (self : ReaderObj) :
  parser_ok Q self -> parser_ok Q (parse_save_field self).
Proof.
  intros [Hf Hg]. split; cbn.
  - apply Forall_app. split; [exact Hf | now constructor].
  - split; [reflexivity | constructor].
Qed.

Lemma with_state_ok (Q : char -> Prop) (self : ReaderObj) (s : ParserState) :
  parser_ok Q self -> parser_ok Q (with_state self s).
Proof. intros H. exact H. Qed.

Lemma parse_add_char_ok (Q : char -> Prop) (self self' : ReaderObj) (c : char) :
  parser_ok Q self -> Q c -> parse_add_char self c = Some self' ->
  parser_ok Q self'.
Proof.
  intros [Hf [_ Hg]] Hc. unfold parse_add_char.
  destruct (field_size_limit <=? _)%N eqn:E; [discriminate|].
  intros [= <-]. split; [exact Hf|]. cbn. split.
  - apply fits_add. exact E.
  - apply Forall_app. split; [exact Hg | now constructor].
Qed.

Lemma parse_process_char_ok (Q : char -> Prop) (self self' : ReaderObj)
  (c : option char) :
  parser_ok Q self ->
  match c with Some ch => Q ch | None => True end ->
  parse_process_char self c = Some self' ->
  parser_ok Q self'.
Proof.
  intros Hs Hc. unfold parse_process_char, start_field.
  pose proof (parse_save_field_ok Q self Hs) as Hsave.
  destruct (rd_state self); destruct c as [ch|];
    repeat match goal with
           | |- context [if ?b then _ else _] => destruct b
           end;
    try (intros [= <-]; assumption);
    try discriminate;
    try (destruct (parse_add_char _ ch) as [self1|] eqn:Ea; [|discriminate];
         cbn [option_map]; intros [= <-];
         apply (parse_add_char_ok Q _ _ _ Hs Hc) in Ea; exact Ea);
    try (intros Ea; apply (parse_add_char_ok Q _ _ _ Hs Hc) in Ea; exact Ea).
  destruct (parse_add_char _ ch) as [self1|] eqn:Ea; [|discriminate].
  cbn [option_map]. intros [= <-].
  exact (parse_add_char_ok Q _ _ _ (with_state_ok Q self START_FIELD Hs) Hc Ea).
Qed.

Lemma end_of_line_ok (Q : char -> Prop) (rows : list (list str))
  (self : ReaderObj) :
  Forall (Forall (field_ok Q)) rows -> parser_ok Q self ->
  cursor_ok Q (end_of_line rows self).
Proof.
  intros Hr Hs. unfold end_of_line.
  destruct (parse_process_char self None) as [self'|] eqn:E; [|exact Hr].
  apply (parse_process_char_ok Q self self' None Hs I) in E.
  destruct (rd_state self'); try (split; assumption).
  split.
  - apply Forall_app. split; [exact Hr|]. constructor; [apply E | constructor].
  - split; [constructor | split; [reflexivity | constructor]].
Qed.

Lemma feed_ok (Q : char -> Prop) (cur : cursor) (c : char) :
  cursor_ok Q cur -> Q c -> cursor_ok Q (feed cur c).
Proof.
  destruct cur as [rows | rows self partial]; [auto|].
  intros [Hr Hs] Hc. unfold feed.
  destruct (parse_process_char self (Some c)) as [self'|] eqn:E; [|exact Hr].
  apply (parse_process_char_ok Q self self' (Some c) Hs Hc) in E.
  destruct (N.eqb c 10); [apply end_of_line_ok; assumption | split; assumption].
Qed.

Lemma fold_feed_ok (Q : char -> Prop) (text : str) : forall cur,
  cursor_ok Q cur -> Forall Q text -> cursor_ok Q (fold_left feed text cur).
Proof.
  induction text as [|c text IH]; intros cur Hcur Ht; [exact Hcur|].
  inversion Ht; subst. cbn [fold_left]. apply IH; [apply feed_ok|]; assumption.
Qed.

Lemma end_of_file_ok (Q : char -> Prop) (cur : cursor) :
  cursor_ok Q cur -> Forall (Forall (field_ok Q)) (end_of_file cur).
Proof.
  destruct cur as [rows | rows self partial]; [auto|].
  intros [Hr Hs]. unfold end_of_file.
  assert (Hc : cursor_ok Q (if partial then end_of_line rows self
                            else Reading rows self partial)).
  { destruct partial; [apply end_of_line_ok; assumption | split; assumption]. }
  destruct (if partial then _ else _) as [rows' | rows' self' p']; [exact Hc|].
  destruct Hc as [Hr' Hs'].
  assert (Hsave : Forall (Forall (field_ok Q))
                    (rows' ++ [rd_fields (parse_save_field self')])).
  { apply Forall_app. split; [exact Hr'|]. constructor; [|constructor].
    apply (parse_save_field_ok Q _ Hs'). }
  destruct (rd_field self'), (rd_state self'); assumption.
Qed.

Lemma start_ok (Q : char -> Prop) : cursor_ok Q start.
Proof.
  split; [constructor|]. split; [constructor | split; [reflexivity | constructor]].
Qed.

(** Every field the reader yields is within the limit and made of
    characters of the text. *)
Lemma reader_ok (Q : char -> Prop) (text : str) :
  Forall Q text -> Forall (Forall (field_ok Q)) (reader text).
Proof.
  intros Ht. apply end_of_file_ok, fold_feed_ok; [apply start_ok | exact Ht].
Qed.

End ReaderFacts.

(* ================================================================== *)
(** * Properties of the inventory and of the connection session *)
(* ================================================================== *)

Module ServersProps.
Import PyStr Csv Servers Scenarios Inventory Invariants CsvFacts ReaderFacts.

(** ** The servers file *)

Lemma read_rows_app (a b : list row) : forall line_count,
  read_rows line_count (a ++ b)
  = read_rows line_count a ++ read_rows (line_count + length a) b.
Proof.
  induction a as [|r a IH]; intros k; simpl.
  - rewrite Nat.add_0_r. reflexivity.
  - rewrite IH, <- app_assoc, Nat.add_succ_r. reflexivity.
Qed.

Lemma read_rows_firstn (n : nat) (rows : list row) : forall line_count,
  length (read_rows line_count (firstn n rows))
  <= length (read_rows line_count rows).
Proof.
  revert n. induction rows as [|r rows IH]; intros [|n] k; simpl; try lia.
  rewrite !length_app. specialize (IH n (S k)). lia.
Qed.

(** A read that raises yields no more rows than one that does not. *)
Lemma get_servers_data_fault (io : fault) (file : servers_file) :
  length (get_servers_data io file) <= length (get_servers_data NoFault file).
Proof.
  destruct file as [content|]; [|simpl; lia].
  destruct io; simpl; [lia | lia | apply read_rows_firstn].
Qed.

(** Text without a carriage return is read as written. *)
Lemma universal_newlines_fixed (s : str) :
  no_carriage_return s -> universal_newlines s = s.
Proof.
  unfold no_carriage_return.
  induction s as [|c s IH]; simpl; intros Hn; [reflexivity|].
  destruct (N.eqb c 13) eqn:E.
  - apply N.eqb_eq in E. subst c. exfalso. apply Hn. now left.
  - f_equal. apply IH. intros Hin. apply Hn. now right.
Qed.

Lemma py_no_carriage_return (s : string) :
  forallb (fun c => negb (N.eqb c 13)) (py s) = true -> no_carriage_return (py s).
Proof.
  intros Hall Hin. rewrite forallb_forall in Hall.
  specialize (Hall _ Hin). discriminate.
Qed.

Lemma map_universal_newlines_fixed (r : row) :
  Forall no_carriage_return r -> map universal_newlines r = r.
Proof.
  intros Hcr. rewrite <- (map_id r) at 2. apply map_ext_in.
  intros f Hf. apply universal_newlines_fixed.
  rewrite Forall_forall in Hcr. auto.
Qed.

Lemma forallb_fits (r : row) :
  Forall within_limit r -> forallb fits r = true.
Proof.
  intros Hl. apply forallb_forall. intros f Hf.
  rewrite Forall_forall in Hl. apply N.leb_le. exact (Hl f Hf).
Qed.

(** The listing is made of the rows read up to the end of the file. *)
Lemma get_servers_data_read (content : str) :
  get_servers_data NoFault (Some content)
  = read_rows 0 (end_of_file (read_to_end content)).
Proof. reflexivity. Qed.

Lemma end_of_file_between (rows : list row) :
  end_of_file (Reading rows parse_reset false) = rows.
Proof. reflexivity. Qed.

Lemma read_to_end_writerows (rs : list row) :
  read_to_end (writerows rs) = read_written [] (map (map universal_newlines) rs).
Proof. apply read_writerows. Qed.

(** What an [add_server] that returns [True] leaves in the file. *)
Lemma add_server_true (io : fault)
  (server_ip username password sender timestamp : str)
  (file file' : servers_file) :
  add_server io server_ip username password sender timestamp file
  = (true, file') ->
  file' = Some match file with
               | Some content =>
                   content
                     ++ writerows [[server_ip; username; password; sender; timestamp]]
               | None =>
                   writerows
                     [header; [server_ip; username; password; sender; timestamp]]
               end.
Proof.
  unfold add_server, write_rows.
  destruct io as [| |n]; [| discriminate |].
  - destruct file; simpl; intros [= <-]; reflexivity.
  - destruct (n <? _); [discriminate|].
    destruct file; simpl; intros [= <-]; reflexivity.
Qed.

(** The records of a well-formed file after a row is written at its end. *)
Lemma read_to_end_add (r : row) (file : servers_file) :
  well_formed file ->
  Forall no_carriage_return r -> Forall within_limit r ->
  exists h rows,
    read_to_end match file with
                | Some content => content ++ writerows [r]
                | None => writerows [header; r]
                end
    = Reading ((h :: rows) ++ [r]) parse_reset false /\
    get_servers_data NoFault file = read_rows 0 (h :: rows).
Proof.
  intros Hw Hcr Hlim.
  pose proof (map_universal_newlines_fixed r Hcr) as Hrow.
  pose proof (forallb_fits r Hlim) as Hfits.
  destruct file as [content|].
  - destruct Hw as (h & rows & Hread). exists h, rows. split.
    + rewrite read_to_end_app, Hread, read_writerows.
      cbn [map read_written]. rewrite Hrow, Hfits. reflexivity.
    + rewrite get_servers_data_read, Hread. reflexivity.
  - exists header, []. split; [|reflexivity].
    rewrite read_to_end_writerows. cbn [map read_written].
    rewrite Hrow, Hfits. reflexivity.
Qed.

Lemma read_rows_last (h r : row) (rows : list row) :
  3 <= length r ->
  read_rows 0 ((h :: rows) ++ [r]) = read_rows 0 (h :: rows) ++ [r].
Proof.
  intros Hr. rewrite read_rows_app. f_equal. cbn [length Nat.add read_rows].
  change (0 <? S (length rows)) with true.
  replace (3 <=? length r) with true; [reflexivity|].
  symmetry. now apply Nat.leb_le.
Qed.

(** C8, as amended.  On a store that is absent, or that is read to its end
    without error, holds at least its header record and ends where a record
    ends (after a line break, outside quotes), and for fields without a
    carriage return and of at most 131072 characters each, after an
    [add_server] that returns [True] the listing is the listing before
    followed by one record, whose five fields are the five arguments; its
    length has grown by one. *)
Theorem add_server_then_list (io : fault)
  (server_ip username password sender timestamp : str)
  (file file' : servers_file) :
  well_formed file ->
  Forall no_carriage_return [server_ip; username; password; sender; timestamp] ->
  Forall within_limit [server_ip; username; password; sender; timestamp] ->
  add_server io server_ip username password sender timestamp file
  = (true, file') ->
  get_servers_data NoFault file'
  = get_servers_data NoFault file
      ++ [[server_ip; username; password; sender; timestamp]] /\
  length (get_servers_data NoFault file')
  = S (length (get_servers_data NoFault file)).
Proof.
  intros Hw Hcr Hlim Hadd. apply add_server_true in Hadd. subst file'.
  destruct (read_to_end_add _ file Hw Hcr Hlim) as (h & rows & Hread & Hlist).
  assert (Hafter : get_servers_data NoFault
                     (Some match file with
                           | Some content =>
                               content
                                 ++ writerows
                                      [[server_ip; username; password; sender;
                                        timestamp]]
                           | None =>
                               writerows
                                 [header;
                                  [server_ip; username; password; sender;
                                   timestamp]]
                           end)
                   = get_servers_data NoFault file
                       ++ [[server_ip; username; password; sender; timestamp]]).
  { etransitivity;
      [exact (f_equal (fun cur => read_rows 0 (end_of_file cur)) Hread)|].
    rewrite end_of_file_between, Hlist. apply read_rows_last. cbn. lia. }
  split; [exact Hafter|].
  rewrite Hafter, length_app. simpl. lia.
Qed.

(** C9.  For a position outside [1, count], where count is the number of
    listed records, [del_server] returns [False] and the store is as it was,
    hence so is its listing. *)
Theorem del_server_out_of_range (rd wr : fault) (server_number : Z)
  (file : servers_file) :
  (server_number < 1
   \/ server_number > Z.of_nat (length (get_servers_data NoFault file)))%Z ->
  del_server rd wr server_number file = (false, file) /\
  get_servers_data NoFault (snd (del_server rd wr server_number file))
  = get_servers_data NoFault file.
Proof.
  intros Hout.
  assert (Hdel : del_server rd wr server_number file = (false, file)).
  { unfold del_server. destruct (os_path_exists file); simpl; [|reflexivity].
    pose proof (get_servers_data_fault rd file) as Hle.
    replace ((server_number <? 1)
             || (server_number >? Z.of_nat (length (get_servers_data rd file))))%Z
      with true; [reflexivity|].
    symmetry. apply orb_true_iff.
    destruct Hout as [Hlo|Hhi]; [left; apply Z.ltb_lt; lia|].
    right. rewrite Z.gtb_ltb. apply Z.ltb_lt. lia. }
  rewrite Hdel. auto.
Qed.

(** C8, witness: a second server added to the store of the scenario. *)
Lemma add_server_then_list_witness :
  get_servers_data NoFault
    (Some (writerows [header; bob]
             ++ writerows
                  [[py "10.0.0.6"; py "amy"; py "pw"; py "admin1";
                    py "2024-01-02 00:00:00"]]))
  = get_servers_data NoFault one_server
      ++ [[py "10.0.0.6"; py "amy"; py "pw"; py "admin1";
           py "2024-01-02 00:00:00"]] /\
  length
    (get_servers_data NoFault
       (Some (writerows [header; bob]
                ++ writerows
                     [[py "10.0.0.6"; py "amy"; py "pw"; py "admin1";
                       py "2024-01-02 00:00:00"]])))
  = S (length (get_servers_data NoFault one_server)).
Proof.
  apply (add_server_then_list NoFault (py "10.0.0.6") (py "amy") (py "pw")
           (py "admin1") (py "2024-01-02 00:00:00") one_server).
  - exists header, [bob]. vm_compute. reflexivity.
  - repeat constructor; apply py_no_carriage_return; reflexivity.
  - repeat constructor; vm_compute; discriminate.
  - reflexivity.
Defined.

(** C8, counterexample: the file exists and has no line.  [add_server]
    writes no header and returns [True]; the row it wrote is record 0,
    which the listing takes for the header: the listing is empty, as
    before. *)
Lemma add_server_to_empty_file :
  add_server NoFault (py "10.0.0.5") (py "bob") (py "pw") (py "admin1")
    (py "2024-01-01 00:00:00") (Some [])
  = (true, Some (writerow bob)) /\
  get_servers_data NoFault (Some []) = [] /\
  get_servers_data NoFault (Some (writerow bob)) = [].
Proof. repeat split. Qed.

(** A last line without its line break: the row is written after its last
    character, and the two are read as one record of nine fields. *)
Example add_server_no_line_break :
  let file := Some (writerow header ++ join_record bob) in
  let added :=
    add_server NoFault (py "10.0.0.6") (py "amy") (py "pw") (py "admin1")
      (py "2024-01-02 00:00:00") file in
  get_servers_data NoFault file = [bob] /\
  fst added = true /\
  get_servers_data NoFault (snd added)
  = [[py "10.0.0.5"; py "bob"; py "pw"; py "admin1";
      py "2024-01-01 00:00:0010.0.0.6"; py "amy"; py "pw"; py "admin1";
      py "2024-01-02 00:00:00"]].
Proof. repeat split. Qed.

(** A field over the limit: [add_server] returns [True], and the read that
    follows raises at the new record; the listing is as before. *)
Lemma add_server_over_limit (io : fault)
  (server_ip username password sender timestamp : str)
  (file file' : servers_file) :
  well_formed file ->
  Forall no_carriage_return [server_ip; username; password; sender; timestamp] ->
  Exists (fun f => ~ within_limit f)
    [server_ip; username; password; sender; timestamp] ->
  add_server io server_ip username password sender timestamp file
  = (true, file') ->
  get_servers_data NoFault file' = get_servers_data NoFault file.
Proof.
  intros Hw Hcr Hover Hadd. apply add_server_true in Hadd. subst file'.
  remember [server_ip; username; password; sender; timestamp] as r eqn:Er.
  clear Er. pose proof (map_universal_newlines_fixed _ Hcr) as Hrow.
  assert (Hfits : forallb fits r = false).
  { destruct (forallb fits r) eqn:E; [|reflexivity]. exfalso.
    rewrite forallb_forall in E. apply Exists_exists in Hover as (f & Hf & Hn).
    apply Hn, N.leb_le, E, Hf. }
  destruct file as [content|].
  - destruct Hw as (h & rows & Hread).
    rewrite !get_servers_data_read, read_to_end_app, Hread, read_writerows.
    cbn [map read_written]. rewrite Hrow, Hfits. reflexivity.
  - rewrite get_servers_data_read, read_to_end_writerows.
    cbn [map read_written]. rewrite Hrow, Hfits. reflexivity.
Qed.

(** A carriage return in a field is listed as a line feed. *)
Example add_server_carriage_return :
  let username := py "bo" ++ [13%N] ++ py "b" in
  let added :=
    add_server NoFault (py "10.0.0.5") username (py "pw") (py "admin1")
      (py "2024-01-01 00:00:00") None in
  fst added = true /\
  get_servers_data NoFault (snd added)
  = [[py "10.0.0.5"; py "bo" ++ [10%N] ++ py "b"; py "pw"; py "admin1";
      py "2024-01-01 00:00:00"]].
Proof. split; reflexivity. Qed.

(** C9, witness: positions 2 and 0 in a store of one record. *)
Lemma del_server_out_of_range_witness :
  (del_server NoFault NoFault 2 one_server = (false, one_server) /\
   get_servers_data NoFault (snd (del_server NoFault NoFault 2 one_server))
   = get_servers_data NoFault one_server) /\
  (del_server NoFault NoFault 0 one_server = (false, one_server) /\
   get_servers_data NoFault (snd (del_server NoFault NoFault 0 one_server))
   = get_servers_data NoFault one_server).
Proof.
  split.
  - apply (del_server_out_of_range NoFault NoFault 2 one_server).
    right. vm_compute. reflexivity.
  - apply (del_server_out_of_range NoFault NoFault 0 one_server).
    left. lia.
Defined.

(** The end-to-end scenario of section 8 of the specification. *)
Example inventory_scenario :
  let added :=
    add_server NoFault (py "10.0.0.5") (py "bob") (py "pw") (py "admin1")
      (py "2024-01-01 00:00:00") (initialize_files None) in
  fst added = true /\
  get_servers_data NoFault (snd added) = [bob] /\
  let deleted := del_server NoFault NoFault 1 (snd added) in
  fst deleted = true /\ get_servers_data NoFault (snd deleted) = [].
Proof. repeat split. Qed.

(** ** The connection session *)

Lemma initial_consistent : consistent initial.
Proof. split; [discriminate | reflexivity]. Qed.

Lemma step_consistent (st : state) (c : call) :
  consistent st -> consistent (step st c).
Proof.
  intros [Hc Hi]. destruct st as [client connected info io]. simpl in *.
  destruct c as [reply now server_ip user password | reply | reply command timeout];
    unfold consistent; simpl.
  - unfold connect_to_server; simpl.
    destruct connected; simpl; [auto|].
    destruct client, reply; simpl; split; intros; try discriminate; auto;
      split; discriminate.
  - unfold disconnect_from_server; simpl.
    destruct connected; simpl; [|auto].
    destruct client, reply; simpl; split; intros; try discriminate; auto.
  - unfold do_command; simpl.
    destruct connected, client, reply; simpl; auto.
Qed.

Lemma fold_consistent (calls : list call) : forall st,
  consistent st -> consistent (fold_left step calls st).
Proof.
  induction calls as [|c calls IH]; intros st Hst; simpl; [exact Hst|].
  apply IH, step_consistent, Hst.
Qed.

Lemma run_consistent (calls : list call) : consistent (run calls).
Proof. apply fold_consistent, initial_consistent. Qed.

(** C1.  After any sequence of calls, if the session is connected, a
    further [connect_to_server] returns failure with the already-connected
    message, whatever the transport would have answered; nothing is asked
    of the transport and the state, with its session, is as it was. *)
Theorem connect_while_connected (calls : list call) (reply : connect_reply)
  (now : Z) (server_ip username password : str) :
  _is_connected (run calls) = true ->
  connect_to_server reply now server_ip username password (run calls)
  = ((false,
      Some (py "Already connected to a server. Please disconnect first.")),
     run calls).
Proof. intros Hc. unfold connect_to_server. rewrite Hc. reflexivity. Qed.

(** C1, witness: a second connect while bob's session is open. *)
Lemma connect_while_connected_witness :
  connect_to_server ConnectOk 1704067260 (py "10.0.0.9") (py "eve") (py "x")
    (run bob_connected)
  = ((false,
      Some (py "Already connected to a server. Please disconnect first.")),
     run bob_connected).
Proof.
  apply (connect_while_connected bob_connected). reflexivity.
Defined.

(** A successful connect starts from a state that is not connected: a
    session is never replaced. *)
Lemma connect_succeeds_only_idle (reply : connect_reply) (now : Z)
  (server_ip username password : str) (st st' : state) (msg : option str) :
  connect_to_server reply now server_ip username password st
  = ((true, msg), st') ->
  _is_connected st = false.
Proof.
  unfold connect_to_server. destruct (_is_connected st); [discriminate|].
  reflexivity.
Qed.

(** C2.  While the session is not connected, or there is no client,
    [do_command] returns the empty output with the not-connected message;
    it returns a value for every reply, and nothing is asked of the
    transport: the state is as it was. *)
Theorem do_command_not_connected (reply : exec_reply) (command : str)
  (timeout : Z) (st : state) :
  _is_connected st = false \/ _ssh_client st = None ->
  do_command reply command timeout st
  = (([], Some (py "Not connected to any server")), st).
Proof.
  intros [Hc|Hn]; unfold do_command.
  - rewrite Hc. reflexivity.
  - rewrite Hn. rewrite orb_true_r. reflexivity.
Qed.

(** C2, witness: a command before any connect. *)
Lemma do_command_not_connected_witness :
  do_command (ExecOk [py "x"] []) (py "ls -la") 10 initial
  = (([], Some (py "Not connected to any server")), initial).
Proof.
  apply (do_command_not_connected (ExecOk [py "x"] []) (py "ls -la") 10 initial).
  left. reflexivity.
Defined.

(** [disconnect_from_server] when not connected: [False], nothing done. *)
Lemma disconnect_not_connected (reply : close_reply) (st : state) :
  _is_connected st = false -> disconnect_from_server reply st = (false, st).
Proof. intros Hc. unfold disconnect_from_server. rewrite Hc. reflexivity. Qed.

(** On every path out of [disconnect_from_server] the flag is down and the
    server info is gone, provided they were so when not connected. *)
Lemma disconnect_clears_flag_and_info (reply : close_reply) (st : state) :
  consistent st ->
  _is_connected (snd (disconnect_from_server reply st)) = false /\
  _connected_server_info (snd (disconnect_from_server reply st)) = None.
Proof.
  intros [_ Hi]. unfold disconnect_from_server.
  destruct (_is_connected st) eqn:Hc; simpl; [|auto].
  destruct (_ssh_client st), reply; simpl; auto.
Qed.

(** When [close()] returns, the client is dropped. *)
Lemma disconnect_close_ok_drops_client (st : state) :
  _is_connected st = true ->
  fst (disconnect_from_server CloseOk st) = true /\
  _ssh_client (snd (disconnect_from_server CloseOk st)) = None.
Proof.
  intros Hc. unfold disconnect_from_server. rewrite Hc. simpl.
  destruct (_ssh_client st); simpl; auto.
Qed.

(** C3.  What the code does when [close()] raises while connected: the flag
    and the server info are cleared, but [_ssh_client] still holds the
    client whose [close()] failed; the handle is not released. *)
Theorem disconnect_close_raises_keeps_client :
  disconnect_from_server (CloseException (py "Socket is closed"))
    (run bob_connected)
  = (false,
     {| _ssh_client := Some {| missing_host_key_policy := AutoAddPolicy |};
        _is_connected := false;
        _connected_server_info := None;
        transport_io :=
          [EvClose; EvConnect (py "10.0.0.5") (py "bob") (py "pw")] |}) /\
  _ssh_client
    (snd (disconnect_from_server (CloseException (py "Socket is closed"))
            (run bob_connected)))
  <> None.
Proof. split; [reflexivity | discriminate]. Qed.

(** C4.  A connect that fails, for any of the three kinds of exception,
    returns failure with a message and leaves the session not connected,
    with no server info.  A command that raises returns the error result and
    leaves the session connected, with its client and its server info. *)
Theorem failures_leave_session :
  (forall (calls : list call) (reply : connect_reply) (now : Z)
          (server_ip username password : str),
     _is_connected (run calls) = false ->
     reply <> ConnectOk ->
     exists error_msg st',
       connect_to_server reply now server_ip username password (run calls)
       = ((false, Some error_msg), st') /\
       match reply with
       | ConnectOk => False
       | AuthenticationException =>
           error_msg = py "Authentication failed. Check username and password."
       | SSHException e => error_msg = py "SSH connection error: " ++ e
       | ConnectException e => error_msg = py "Connection failed: " ++ e
       end /\
       _is_connected st' = false /\
       _connected_server_info st' = None) /\
  (forall (calls : list call) (e command : str) (timeout : Z),
     _is_connected (run calls) = true ->
     exists st',
       do_command (ExecException e) command timeout (run calls)
       = (([], Some (py "Command execution failed: " ++ e)), st') /\
       _is_connected st' = true /\
       _ssh_client st' = _ssh_client (run calls) /\
       _connected_server_info st' = _connected_server_info (run calls)).
Proof.
  split.
  - intros calls reply now server_ip user password Hc Hr.
    destruct (run_consistent calls) as [_ Hi]. specialize (Hi Hc).
    unfold connect_to_server. rewrite Hc.
    destruct (get_ssh_client (run calls)) as [client st] eqn:Eg.
    assert (Hst : _is_connected st = false /\ _connected_server_info st = None).
    { unfold get_ssh_client in Eg.
      destruct (_ssh_client (run calls)); injection Eg as _ <-; simpl; auto. }
    destruct Hst as [Hc' Hi'].
    destruct reply; [contradiction | | |];
      eexists; eexists; (split; [reflexivity|]); simpl; auto.
  - intros calls e command timeout Hc.
    destruct (run_consistent calls) as [Hcons _].
    destruct (Hcons Hc) as [Hclient _].
    unfold do_command. rewrite Hc.
    destruct (_ssh_client (run calls)) eqn:Ec; [|contradiction].
    simpl. eexists. split; [reflexivity|]. simpl. auto.
Qed.

(** C4, witness: a rejected password before any session, and a command that
    times out in bob's session. *)
Lemma failures_leave_session_witness :
  (exists error_msg st',
     connect_to_server AuthenticationException 1704067200 (py "10.0.0.5")
       (py "bob") (py "bad") (run [])
     = ((false, Some error_msg), st') /\
     error_msg = py "Authentication failed. Check username and password." /\
     _is_connected st' = false /\
     _connected_server_info st' = None) /\
  (exists st',
     do_command (ExecException (py "timed out")) (py "sleep 60") 10
       (run bob_connected)
     = (([], Some (py "Command execution failed: " ++ py "timed out")), st') /\
     _is_connected st' = true /\
     _ssh_client st' = _ssh_client (run bob_connected) /\
     _connected_server_info st' = _connected_server_info (run bob_connected)).
Proof.
  split.
  - apply (proj1 failures_leave_session [] AuthenticationException);
      [reflexivity | discriminate].
  - apply (proj2 failures_leave_session bob_connected). reflexivity.
Defined.

End ServersProps.

(* ================================================================== *)
(** * More on the inventory *)
(* ================================================================== *)

Module InventoryProps.
Import PyStr Csv Servers Inventory Invariants Scenarios CsvFacts ReaderFacts.

(** ** Newline translation *)

Lemma universal_newlines_bounded (n : nat) : forall s,
  length s <= n -> no_carriage_return (universal_newlines s).
Proof.
  unfold no_carriage_return.
  induction n as [|n IH]; intros [|c s] Hl; simpl in *; try tauto; try lia.
  destruct (N.eqb c 13) eqn:Ec.
  - intros [Hin|Hin]; [discriminate|].
    destruct s as [|d s]; [exact Hin|]. simpl in Hl.
    destruct (N.eqb d 10); revert Hin; apply IH; simpl; lia.
  - intros [Hin|Hin].
    + subst c. discriminate.
    + revert Hin. apply IH. lia.
Qed.

Lemma universal_newlines_clean (s : str) :
  no_carriage_return (universal_newlines s).
Proof. exact (universal_newlines_bounded (length s) s (le_n _)). Qed.

Lemma universal_newlines_idem (s : str) :
  universal_newlines (universal_newlines s) = universal_newlines s.
Proof.
  apply ServersProps.universal_newlines_fixed, universal_newlines_clean.
Qed.

(** ** The listing *)

Lemma read_rows_S (rows : list row) : forall line_count,
  read_rows (S line_count) rows = filter long_enough rows.
Proof.
  induction rows as [|r rows IH]; intros k; cbn [read_rows filter];
    [reflexivity|].
  rewrite IH. unfold long_enough. change (0 <? S k) with true.
  destruct (3 <=? length r); reflexivity.
Qed.

Lemma read_rows_0 (rows : list row) :
  read_rows 0 rows = filter long_enough (tl rows).
Proof. destruct rows as [|h rows]; simpl; [reflexivity|]. apply read_rows_S. Qed.

Lemma read_rows_In (rows : list row) (r : row) : forall line_count,
  In r (read_rows line_count rows) -> In r rows /\ 3 <= length r.
Proof.
  induction rows as [|x rows IH]; intros k; cbn [read_rows]; [intros []|].
  intros Hin. apply in_app_or in Hin as [Hin|Hin].
  - destruct (0 <? k); cbn [andb] in Hin; [|destruct Hin].
    destruct (3 <=? length x) eqn:E; [|destruct Hin].
    destruct Hin as [<-|[]]. apply Nat.leb_le in E. split; [now left | exact E].
  - destruct (IH _ Hin). split; [now right | assumption].
Qed.

(** The rows of the reader, on a file read in text mode. *)
Lemma reader_rows (content : str) :
  Forall (Forall (field_ok (fun c => c <> 13%N)))
    (reader (universal_newlines content)).
Proof.
  apply reader_ok. apply Forall_forall. intros c Hin ->.
  exact (universal_newlines_clean content Hin).
Qed.

Lemma get_servers_data_listed (io : fault) (file : servers_file) (r : row) :
  In r (get_servers_data io file) -> listed r.
Proof.
  destruct file as [content|]; simpl; [|tauto].
  pose proof (reader_rows content) as Hok. rewrite Forall_forall in Hok.
  destruct io as [| |n]; simpl; [|tauto|]; intros Hin;
    apply read_rows_In in Hin as [Hin Hlen]; split; auto.
  apply Hok. exact (UtilsProps.firstn_In _ _ _ _ Hin).
Qed.

Lemma listed_no_carriage_return (r : row) :
  listed r -> Forall no_carriage_return r.
Proof.
  intros [_ Hr]. apply Forall_forall. intros f Hf.
  rewrite Forall_forall in Hr. destruct (Hr f Hf) as [_ Hq].
  intros Hin. rewrite Forall_forall in Hq. exact (Hq _ Hin eq_refl).
Qed.

Lemma listed_fits (r : row) : listed r -> forallb fits r = true.
Proof.
  intros [_ Hr]. apply forallb_forall. intros f Hf.
  rewrite Forall_forall in Hr. exact (proj1 (Hr f Hf)).
Qed.

Lemma listed_long_enough (l : list row) :
  Forall listed l -> filter long_enough l = l.
Proof.
  induction 1 as [|r l [Hlen _] _ IH]; simpl; [reflexivity|].
  rewrite IH. unfold long_enough.
  replace (3 <=? length r) with true; [reflexivity|].
  symmetry. now apply Nat.leb_le.
Qed.

Lemma pop_incl (l : list row) (i : nat) (r : row) : In r (pop l i) -> In r l.
Proof.
  unfold pop. intros Hin. rewrite <- (firstn_skipn i l).
  apply in_app_or in Hin as [Hin|Hin]; apply in_or_app; [now left|right].
  rewrite <- (firstn_skipn 1 (skipn i l)). apply in_or_app. right.
  rewrite skipn_skipn. exact Hin.
Qed.

Lemma pop_length (l : list row) (i : nat) :
  i < length l -> length (pop l i) = length l - 1.
Proof.
  intros Hi. unfold pop. rewrite length_app, length_firstn, length_skipn. lia.
Qed.

(** X1.  Whatever the file holds and wherever the read fails, every listed
    row has at least three fields and no carriage return in any of them: the
    handlers' [server[0]], [server[1]], [server[2]] are always in range. *)
Theorem get_servers_data_rows (io : fault) (file : servers_file) (r : row) :
  In r (get_servers_data io file) ->
  (exists server_ip username password rest,
     r = server_ip :: username :: password :: rest) /\
  Forall no_carriage_return r.
Proof.
  intros Hin. apply get_servers_data_listed in Hin. split.
  - destruct Hin as [Hlen _].
    destruct r as [|a [|b [|c rest]]]; simpl in Hlen; try lia. eauto.
  - apply listed_no_carriage_return, Hin.
Qed.

Lemma get_servers_data_rows_witness :
  (exists server_ip username password rest,
     bob = server_ip :: username :: password :: rest) /\
  Forall no_carriage_return bob.
Proof.
  apply (get_servers_data_rows NoFault one_server bob). vm_compute. now left.
Defined.

(** X2.  A read that raises part-way returns a prefix of what the read
    without error returns. *)
Theorem get_servers_data_prefix (io : fault) (file : servers_file) :
  exists rest,
    get_servers_data NoFault file = get_servers_data io file ++ rest.
Proof.
  destruct file as [content|]; [|exists []; reflexivity].
  destruct io as [| |n]; simpl.
  - exists []. now rewrite app_nil_r.
  - eexists. reflexivity.
  - set (l := reader (universal_newlines content)).
    exists (read_rows (0 + length (firstn n l)) (skipn n l)).
    rewrite <- ServersProps.read_rows_app, firstn_skipn. reflexivity.
Qed.

(** The file that [del_server] writes, read back. *)
Lemma listing_of_written (l : list row) :
  Forall listed l ->
  read_to_end (writerows (header :: l)) = Reading (header :: l) parse_reset false
  /\ get_servers_data NoFault (Some (writerows (header :: l))) = l.
Proof.
  intros Hl.
  assert (Hread : read_to_end (writerows (header :: l))
                  = Reading (header :: l) parse_reset false).
  { rewrite ServersProps.read_to_end_writerows.
    assert (Hfix : map (map universal_newlines) (header :: l) = header :: l).
    { cbn [map]. f_equal.
      rewrite <- (map_id l) at 2. apply map_ext_in. intros r Hr.
      apply ServersProps.map_universal_newlines_fixed, listed_no_carriage_return.
      rewrite Forall_forall in Hl. auto. }
    rewrite Hfix. apply (read_written_fits (header :: l) []).
    constructor; [reflexivity|].
    apply Forall_forall. intros r Hr. apply listed_fits.
    rewrite Forall_forall in Hl. auto. }
  split; [exact Hread|].
  rewrite ServersProps.get_servers_data_read, Hread,
    ServersProps.end_of_file_between, read_rows_0.
  apply listed_long_enough, Hl.
Qed.

Lemma pop_listed (l : list row) (i : nat) :
  Forall listed l -> Forall listed (pop l i).
Proof.
  rewrite !Forall_forall. intros Hl r Hin. apply Hl. exact (pop_incl _ _ _ Hin).
Qed.

Lemma get_servers_data_all_listed (io : fault) (file : servers_file) :
  Forall listed (get_servers_data io file).
Proof.
  apply Forall_forall. intros r Hr. exact (get_servers_data_listed _ _ _ Hr).
Qed.

(** X3.  A delete at a position within the rows that were read, with no
    write error, returns [True] and rewrites the file as the header followed
    by exactly those rows without the one at the position: the listing is
    then that list, one shorter, the others in their order. *)
Theorem del_server_in_range (rd : fault) (server_number : Z)
  (content : str) (servers : list row) :
  servers = get_servers_data rd (Some content) ->
  (1 <= server_number <= Z.of_nat (length servers))%Z ->
  del_server rd NoFault server_number (Some content)
  = (true,
     Some (writerows (header :: pop servers (Z.to_nat (server_number - 1))))) /\
  get_servers_data NoFault
    (Some (writerows (header :: pop servers (Z.to_nat (server_number - 1)))))
  = pop servers (Z.to_nat (server_number - 1)) /\
  length (pop servers (Z.to_nat (server_number - 1))) = length servers - 1.
Proof.
  intros Hs Hn. split; [|split].
  - unfold del_server. cbn [os_path_exists negb]. rewrite <- Hs.
    replace ((server_number <? 1)
             || (server_number >? Z.of_nat (length servers)))%Z with false;
      [reflexivity|].
    symmetry. apply orb_false_iff. split; [apply Z.ltb_ge; lia|].
    rewrite Z.gtb_ltb. apply Z.ltb_ge. lia.
  - apply listing_of_written, pop_listed. subst servers.
    apply get_servers_data_all_listed.
  - apply pop_length. lia.
Qed.

Lemma del_server_in_range_witness :
  del_server NoFault NoFault 1 one_server
  = (true, Some (writerows (header :: pop [bob] 0))) /\
  get_servers_data NoFault (Some (writerows (header :: pop [bob] 0)))
  = pop [bob] 0 /\
  length (pop [bob] 0) = length [bob] - 1.
Proof.
  apply (del_server_in_range NoFault 1 (writerows [header; bob]) [bob]).
  - vm_compute. reflexivity.
  - simpl. lia.
Defined.

(** One call of the inventory against the specification's sequence. *)
Lemma inventory_step_refines (file : servers_file) (c : inventory_call) :
  well_formed file ->
  Forall no_carriage_return (written c) ->
  Forall within_limit (written c) ->
  get_servers_data NoFault (inventory_step file c)
  = spec_step (get_servers_data NoFault file) c /\
  well_formed (inventory_step file c).
Proof.
  intros Hw Hcr Hlim.
  destruct c as [a b c d e | n]; cbn [inventory_step spec_step].
  - cbn [written] in Hcr, Hlim.
    destruct (ServersProps.read_to_end_add _ file Hw Hcr Hlim)
      as (h & rows & Hread & Hlist).
    assert (Hadd : snd (add_server NoFault a b c d e file)
                   = Some match file with
                          | Some content => content ++ writerows [[a; b; c; d; e]]
                          | None => writerows [header; [a; b; c; d; e]]
                          end).
    { destruct file; reflexivity. }
    rewrite Hadd. split.
    + etransitivity;
        [exact (f_equal (fun cur => read_rows 0 (end_of_file cur)) Hread)|].
      rewrite ServersProps.end_of_file_between, Hlist.
      apply ServersProps.read_rows_last. cbn. lia.
    + exists h, (rows ++ [[a; b; c; d; e]]). exact Hread.
  - destruct file as [content|].
    + set (servers := get_servers_data NoFault (Some content)).
      destruct ((1 <=? n) && (n <=? Z.of_nat (length servers)))%Z eqn:En.
      * apply andb_true_iff in En as [Hlo Hhi].
        apply Z.leb_le in Hlo, Hhi.
        destruct (del_server_in_range NoFault n content servers eq_refl
                    (conj Hlo Hhi)) as (Hdel & Hlist & _).
        rewrite Hdel. cbn [snd]. split.
        -- rewrite Hlist. unfold pop. f_equal; [f_equal; lia|]. f_equal. lia.
        -- eexists. eexists.
           apply listing_of_written, pop_listed, get_servers_data_all_listed.
      * replace (del_server NoFault NoFault n (Some content))
          with (false, Some content); [split; [reflexivity | exact Hw]|].
        unfold del_server. cbn [os_path_exists negb]. fold servers.
        replace ((n <? 1) || (n >? Z.of_nat (length servers)))%Z with true;
          [reflexivity|].
        symmetry. apply andb_false_iff in En. apply orb_true_iff.
        destruct En as [En|En]; apply Z.leb_gt in En;
          [left; apply Z.ltb_lt; lia|right; rewrite Z.gtb_ltb; apply Z.ltb_lt; lia].
    + cbn. split; [|exact I].
      destruct ((1 <=? n) && (n <=? 0))%Z eqn:En; [|reflexivity].
      apply andb_true_iff in En as [Hlo Hhi]. apply Z.leb_le in Hlo, Hhi. lia.
Qed.

(** X4.  Refinement.  From a store that is absent, or that is read to its
    end without error, holds at least its header record and ends where a
    record ends, through any sequence of [add_server] and [del_server] calls
    that meet no I/O error and write fields without a carriage return and of
    at most 131072 characters, the listing of the file is what appending and
    deleting by 1-based position make of the listing it started with. *)
Theorem inventory_refines (calls : list inventory_call) :
  forall file,
  well_formed file ->
  Forall (fun c => Forall no_carriage_return (written c)) calls ->
  Forall (fun c => Forall within_limit (written c)) calls ->
  get_servers_data NoFault (inventory_run calls file)
  = spec_run calls (get_servers_data NoFault file).
Proof.
  unfold inventory_run, spec_run.
  induction calls as [|c calls IH]; intros file Hw Hcr Hlim; [reflexivity|].
  inversion Hcr as [|? ? Hc Hrest]; subst.
  inversion Hlim as [|? ? Hl Hlrest]; subst. cbn [fold_left].
  destruct (inventory_step_refines file c Hw Hc Hl) as [Hstep Hw'].
  rewrite (IH _ Hw' Hrest Hlrest), Hstep. reflexivity.
Qed.

Lemma inventory_refines_witness :
  get_servers_data NoFault
    (inventory_run
       [AddServer (py "10.0.0.5") (py "bob") (py "pw") (py "admin1")
          (py "2024-01-01 00:00:00");
        AddServer (py "10.0.0.6") (py "amy") (py "pw") (py "admin1")
          (py "2024-01-02 00:00:00");
        DelServer 1; DelServer 5]
       None)
  = spec_run
      [AddServer (py "10.0.0.5") (py "bob") (py "pw") (py "admin1")
         (py "2024-01-01 00:00:00");
       AddServer (py "10.0.0.6") (py "amy") (py "pw") (py "admin1")
         (py "2024-01-02 00:00:00");
       DelServer 1; DelServer 5]
      (get_servers_data NoFault None).
Proof.
  apply (inventory_refines
           [AddServer (py "10.0.0.5") (py "bob") (py "pw") (py "admin1")
              (py "2024-01-01 00:00:00");
            AddServer (py "10.0.0.6") (py "amy") (py "pw") (py "admin1")
              (py "2024-01-02 00:00:00");
            DelServer 1; DelServer 5] None).
  - exact I.
  - repeat constructor; apply ServersProps.py_no_carriage_return; reflexivity.
  - repeat constructor; vm_compute; discriminate.
Defined.

(** ** The shape of the file *)

Lemma end_of_file_read_written (rs : list row) : forall rows,
  end_of_file (read_written rows rs) = rows_read (read_written rows rs) /\
  match read_written rows rs with
  | Raised _ => True
  | Reading _ self partial => self = parse_reset /\ partial = false
  end.
Proof.
  induction rs as [|r rs IH]; intros rows; cbn [read_written].
  - split; [reflexivity | split; reflexivity].
  - destruct (forallb fits r); [apply IH | split; [reflexivity | exact I]].
Qed.

(** On a file that ends between two records, the listing is made of the
    rows read. *)
Lemma listing_between (content : str) :
  ends_between_records (Some content) ->
  get_servers_data NoFault (Some content)
  = filter long_enough (tl (rows_read (read_to_end content))).
Proof.
  cbn [ends_between_records]. rewrite ServersProps.get_servers_data_read.
  destruct (read_to_end content) as [rows | rows self partial].
  - intros _. apply read_rows_0.
  - intros [-> ->]. apply read_rows_0.
Qed.

(** Rows written at the end of a file that ends between two records: the
    rows read before stay, and the file ends between two records. *)
Lemma read_to_end_written (content : str) (rs : list row) :
  ends_between_records (Some content) ->
  ends_between_records (Some (content ++ writerows rs)) /\
  exists more,
    rows_read (read_to_end (content ++ writerows rs))
    = rows_read (read_to_end content) ++ more /\
    Forall (fun r => In r (map (map universal_newlines) rs)) more.
Proof.
  cbn [ends_between_records]. rewrite read_to_end_app.
  destruct (read_to_end content) as [rows | rows self partial].
  - intros _. rewrite fold_feed_raised. split; [exact I|].
    exists []. split; [now rewrite app_nil_r | constructor].
  - intros [-> ->]. rewrite read_writerows.
    split; [apply end_of_file_read_written|].
    cbn [rows_read].
    generalize (map (map universal_newlines) rs). clear rs.
    intros rs. revert rows.
    induction rs as [|r rs IH]; intros rows; cbn [read_written].
    + exists []. split; [now rewrite app_nil_r | constructor].
    + destruct (forallb fits r).
      * destruct (IH (rows ++ [r])) as (more & -> & Hmore). exists (r :: more).
        split; [now rewrite <- app_assoc|].
        constructor; [now left|].
        apply Forall_forall. intros x Hx. right.
        rewrite Forall_forall in Hmore. auto.
      * exists []. split; [now rewrite app_nil_r | constructor].
Qed.

(** Rows written at the end of a file that ends between two records
    leave the listing of the file in place. *)
Lemma written_keeps_listing (content : str) (rs : list row) :
  ends_between_records (Some content) ->
  exists more,
    get_servers_data NoFault (Some (content ++ writerows rs))
    = get_servers_data NoFault (Some content) ++ more.
Proof.
  intros Hb.
  destruct (read_to_end_written content rs Hb) as (Hb' & more & Hrows & _).
  exists (match rows_read (read_to_end content) with
          | [] => filter long_enough (tl more)
          | _ => filter long_enough more
          end).
  change (list char) with str.
  rewrite (listing_between _ Hb), (listing_between _ Hb'), Hrows.
  destruct (rows_read (read_to_end content)) as [|h rows]; cbn [app tl];
    [reflexivity|].
  apply filter_app.
Qed.

(** X24.  On a file that ends between two records (or whose reading
    raises before its end), [add_server] loses no listed record, wherever
    its write fails: the listing before the call is a prefix of the listing
    after it. *)
Theorem add_server_keeps_listing (io : fault)
  (server_ip username password sender timestamp : str) (file : servers_file) :
  ends_between_records file ->
  exists more,
    get_servers_data NoFault
      (snd (add_server io server_ip username password sender timestamp file))
    = get_servers_data NoFault file ++ more.
Proof.
  intros Hb. destruct file as [content|]; [|eexists; reflexivity].
  unfold add_server, write_rows. cbn [os_path_exists negb app length].
  destruct io as [| |n]; cbn [snd].
  - apply written_keeps_listing, Hb.
  - exists []. now rewrite app_nil_r.
  - destruct (n <? 1); cbn [snd]; apply written_keeps_listing, Hb.
Qed.

Lemma add_server_keeps_listing_witness :
  exists more,
    get_servers_data NoFault
      (snd (add_server NoFault (py "10.0.0.6") (py "amy") (py "pw")
              (py "admin1") (py "2024-01-02 00:00:00") one_server))
    = get_servers_data NoFault one_server ++ more.
Proof.
  apply (add_server_keeps_listing NoFault (py "10.0.0.6") (py "amy")
           (py "pw") (py "admin1") (py "2024-01-02 00:00:00") one_server).
  vm_compute. split; reflexivity.
Defined.

(** The program keeps the file in shape. *)
Lemma maintained_listing (file : servers_file) :
  maintained file ->
  Forall (fun r => 5 <= length r) (get_servers_data NoFault file).
Proof.
  destruct file as [content|]; [|constructor].
  intros [Hb Hm]. rewrite (listing_between _ Hb).
  apply Forall_forall. intros r Hr. apply filter_In in Hr as [Hr _].
  rewrite Forall_forall in Hm. auto.
Qed.

Lemma maintained_empty : maintained (Some []).
Proof. split; [split; reflexivity | constructor]. Qed.

(** Rows of at least five fields, written at the end of a file in shape. *)
Lemma written_maintained (content : str) (rs : list row) :
  maintained (Some content) ->
  Forall (fun r => 5 <= length r) rs ->
  maintained (Some (content ++ writerows rs)).
Proof.
  intros [Hb Hm] Hrs.
  destruct (read_to_end_written content rs Hb) as (Hb' & more & Hrows & Hmore).
  split; [exact Hb'|]. rewrite Hrows.
  assert (Hall : Forall (fun r => 5 <= length r)
                   (tl (rows_read (read_to_end content)) ++ more)).
  { apply Forall_app. split; [exact Hm|].
    apply Forall_forall. intros r Hr. rewrite Forall_forall in Hmore.
    apply Hmore, in_map_iff in Hr as (r0 & <- & Hr0). rewrite length_map.
    rewrite Forall_forall in Hrs. auto. }
  destruct (rows_read (read_to_end content)) as [|h rows]; [|exact Hall].
  cbn [app tl] in *. destruct more as [|r more]; [constructor|].
  inversion Hall; assumption.
Qed.

Lemma inventory_step_maintained (file : servers_file) (c : inventory_call) :
  maintained file -> maintained (inventory_step file c).
Proof.
  intros Hm. destruct c as [a b c d e | n]; cbn [inventory_step].
  - destruct file as [content|].
    + apply (written_maintained content [[a; b; c; d; e]] Hm).
      repeat constructor.
    + apply (written_maintained [] [header; [a; b; c; d; e]] maintained_empty).
      repeat constructor.
  - destruct file as [content|]; [|exact I || exact Hm].
    unfold del_server. cbn [os_path_exists negb].
    destruct (_ || _)%bool; cbn [snd write_rows]; [exact Hm|].
    apply (written_maintained [] _ maintained_empty).
    constructor; [cbn; lia|].
    apply Forall_forall. intros r Hr. apply pop_incl in Hr.
    pose proof (maintained_listing _ Hm) as Hl.
    rewrite Forall_forall in Hl. auto.
Qed.

Lemma inventory_run_maintained (calls : list inventory_call) :
  forall file, maintained file -> maintained (inventory_run calls file).
Proof.
  unfold inventory_run.
  induction calls as [|c calls IH]; intros file Hm; [exact Hm|].
  cbn [fold_left]. apply IH, inventory_step_maintained, Hm.
Qed.

End InventoryProps.

(* ================================================================== *)
(** * [format_server_list] and the listing *)
(* ================================================================== *)

Module FormatProps.
Import PyStr Servers Inventory UtilsFormat Scenarios.

Lemma nth_error_none_short (server : row) :
  match nth_error server 0, nth_error server 3, nth_error server 4 with
  | Some _, Some _, Some _ => 5 <= length server
  | _, _, _ => length server < 5
  end.
Proof.
  destruct server as [|f0 [|f1 [|f2 [|f3 [|f4 rest]]]]]; simpl; lia.
Qed.

Lemma format_rows_raises (servers : list row) : forall idx table,
  format_rows idx servers table = None <->
  exists server, In server servers /\ length server < 5.
Proof.
  induction servers as [|server rest IH]; intros idx table; cbn [format_rows].
  - split; [discriminate | intros (? & [] & _)].
  - pose proof (nth_error_none_short server) as Hs.
    destruct (nth_error server 0), (nth_error server 3), (nth_error server 4);
      try (split; [intros _; exists server; split; [now left | exact Hs]
                  | reflexivity]).
    rewrite IH. split.
    + intros (r & Hr & Hlen). exists r. split; [now right | exact Hlen].
    + intros (r & [<-|Hr] & Hlen); [lia|]. exists r. auto.
Qed.

(** X5.  [format_server_list] raises [IndexError] exactly when some row has
    fewer than five fields; the empty list is answered with a fixed text. *)
Theorem format_server_list_raises (servers : list row) :
  (format_server_list servers = None <->
   exists server, In server servers /\ length server < 5) /\
  format_server_list [] = Some (py "No servers found.").
Proof.
  split; [|reflexivity].
  destruct servers as [|server rest].
  - split; [discriminate | intros (? & [] & _)].
  - apply format_rows_raises.
Qed.

(** X6.  On a store the program maintains (absent; or a file that ends
    between two records, or whose reading raises before its end, in which
    every record read after the first has at least five fields), after any
    sequence of [add_server] and [del_server] calls that meet no I/O error,
    formatting the listing does not raise. *)
Theorem format_maintained_listing (calls : list inventory_call)
  (file : servers_file) :
  maintained file ->
  exists table,
    format_server_list (get_servers_data NoFault (inventory_run calls file))
    = Some table.
Proof.
  intros Hm.
  pose proof (InventoryProps.maintained_listing _
                (InventoryProps.inventory_run_maintained calls file Hm)) as Hl.
  destruct (format_server_list _) as [table|] eqn:E; [now exists table|].
  apply (proj1 (format_server_list_raises _)) in E as (r & Hr & Hlen).
  rewrite Forall_forall in Hl. specialize (Hl r Hr). lia.
Qed.

Lemma format_maintained_listing_witness :
  exists table,
    format_server_list
      (get_servers_data NoFault
         (inventory_run
            [AddServer (py "10.0.0.5") (py "bob") (py "pw") (py "admin1")
               (py "2024-01-01 00:00:00")]
            (initialize_files None)))
    = Some table.
Proof.
  apply (format_maintained_listing
           [AddServer (py "10.0.0.5") (py "bob") (py "pw") (py "admin1")
              (py "2024-01-01 00:00:00")]
           (initialize_files None)).
  split; [vm_compute; split; reflexivity | vm_compute; constructor].
Defined.

(** A file whose last line has no line break is not in that shape: a first
    field with line breaks and commas, written after the last character, is
    read without its quotes, and leaves a listed row of three fields. *)
Example format_no_line_break :
  let file := Some (Csv.writerow header ++ Csv.join_record bob) in
  let ip := py "x" ++ [10%N] ++ py "a,b,c" ++ [10%N] ++ py "d" in
  let file' := inventory_run [AddServer ip (py "u") (py "p") (py "s") (py "t")] file in
  get_servers_data NoFault file'
  = [[py "10.0.0.5"; py "bob"; py "pw"; py "admin1";
      py "2024-01-01 00:00:00" ++ [34%N] ++ py "x"];
     [py "a"; py "b"; py "c"];
     [py "d" ++ [34%N]; py "u"; py "p"; py "s"; py "t"]] /\
  format_server_list (get_servers_data NoFault file') = None.
Proof. split; reflexivity. Qed.

End FormatProps.

(* ================================================================== *)
(** * More on the connection session *)
(* ================================================================== *)

Module SessionProps.
Import PyStr Servers Invariants Scenarios.

(** X7.  After any sequence of calls, [is_connected_to_server()] is true
    exactly when [get_connected_server_info()] is not [None], and then there
    is a client. *)
Theorem connected_iff_info (calls : list call) :
  (is_connected_to_server (run calls) = true <->
   get_connected_server_info (run calls) <> None) /\
  (is_connected_to_server (run calls) = true -> _ssh_client (run calls) <> None).
Proof.
  unfold is_connected_to_server, get_connected_server_info.
  destruct (ServersProps.run_consistent calls) as [Hc Hi].
  split; [split|].
  - intros H. now apply Hc.
  - intros H. destruct (_is_connected (run calls)); [reflexivity|].
    now rewrite Hi in H.
  - intros H. now apply Hc.
Qed.

Lemma step_trusting (st : state) (c : call) : trusting st -> trusting (step st c).
Proof.
  unfold trusting. intros Ht.
  destruct st as [client connected info io]. cbn [_ssh_client] in Ht.
  destruct c as [reply now server_ip user password | reply | reply command timeout];
    cbn [step].
  - unfold connect_to_server, get_ssh_client. cbn.
    destruct connected; cbn; [exact Ht|].
    destruct client as [c0|], reply; cbn; intros c1 [= <-]; auto.
  - unfold disconnect_from_server. cbn.
    destruct connected; cbn; [|exact Ht].
    destruct client as [c0|], reply; cbn; intros c1 [=]; subst; auto.
  - unfold do_command. cbn.
    destruct connected, client as [c0|], reply; cbn; exact Ht.
Qed.

(** X8.  After any sequence of calls, the client, when there is one,
    accepts and remembers unknown host keys ([AutoAddPolicy]): no call
    installs another policy. *)
Theorem client_policy (calls : list call) (client : SSHClient) :
  _ssh_client (run calls) = Some client ->
  missing_host_key_policy client = AutoAddPolicy.
Proof.
  revert client. change (trusting (run calls)). unfold run.
  assert (Hfold : forall st, trusting st -> trusting (fold_left step calls st)).
  { induction calls as [|c calls IH]; intros st Hst; [exact Hst|].
    cbn [fold_left]. apply IH, step_trusting, Hst. }
  apply Hfold. intros client [=].
Qed.

Lemma client_policy_witness :
  missing_host_key_policy {| missing_host_key_policy := AutoAddPolicy |}
  = AutoAddPolicy.
Proof.
  apply (client_policy bob_connected). reflexivity.
Defined.

(** X9.  The life of a session.  From any state that is not connected, a
    connect the transport accepts returns success and records the address,
    the user and the time; a disconnect whose [close()] returns then gives
    [True] and leaves no client, no flag and no server info, after which a
    command is answered with the not-connected message. *)
Theorem session_life (calls : list call) (now : Z)
  (server_ip username password : str)
  (reply : exec_reply) (command : str) (timeout : Z) :
  _is_connected (run calls) = false ->
  exists connected idle,
    connect_to_server ConnectOk now server_ip username password (run calls)
    = ((true, None), connected) /\
    is_connected_to_server connected = true /\
    get_connected_server_info connected
    = Some {| ip := server_ip; username := username; connected_at := now |} /\
    disconnect_from_server CloseOk connected = (true, idle) /\
    _ssh_client idle = None /\
    is_connected_to_server idle = false /\
    get_connected_server_info idle = None /\
    do_command reply command timeout idle
    = (([], Some (py "Not connected to any server")), idle).
Proof.
  intros Hc. unfold connect_to_server. rewrite Hc.
  destruct (get_ssh_client (run calls)) as [client st] eqn:Eg.
  assert (Hclient : _ssh_client st <> None).
  { unfold get_ssh_client in Eg.
    destruct (_ssh_client (run calls)) eqn:Ec; injection Eg as _ <-;
      cbn; [rewrite Ec|]; discriminate. }
  eexists. eexists. split; [reflexivity|].
  split; [reflexivity|]. split; [reflexivity|].
  unfold disconnect_from_server. cbn.
  destruct (_ssh_client st); [|contradiction].
  split; [reflexivity|]. repeat split.
Qed.

Lemma session_life_witness :
  exists connected idle,
    connect_to_server ConnectOk 1704067200 (py "10.0.0.5") (py "bob") (py "pw")
      (run [])
    = ((true, None), connected) /\
    is_connected_to_server connected = true /\
    get_connected_server_info connected
    = Some {| ip := py "10.0.0.5"; username := py "bob";
              connected_at := 1704067200 |} /\
    disconnect_from_server CloseOk connected = (true, idle) /\
    _ssh_client idle = None /\
    is_connected_to_server idle = false /\
    get_connected_server_info idle = None /\
    do_command (ExecOk [] []) (py "ls") 10 idle
    = (([], Some (py "Not connected to any server")), idle).
Proof.
  apply (session_life [] 1704067200 (py "10.0.0.5") (py "bob") (py "pw")
           (ExecOk [] []) (py "ls") 10).
  reflexivity.
Defined.

End SessionProps.

(* ================================================================== *)
(** * Properties of the admin list *)
(* ================================================================== *)

Module AuthenticationProps.
Import PyStr PyStrFacts Servers Authentication Invariants.

(** ** Strings *)

Lemma str_eqb_eq (a b : str) : str_eqb a b = true <-> a = b.
Proof.
  revert b. induction a as [|x a IH]; intros [|y b]; simpl;
    try (split; [discriminate | discriminate]); [tauto|].
  rewrite andb_true_iff, N.eqb_eq, IH. split.
  - intros [-> ->]. reflexivity.
  - intros [= -> ->]. auto.
Qed.

Lemma str_eqb_refl (a : str) : str_eqb a a = true.
Proof. now apply str_eqb_eq. Qed.

Lemma str_eqb_neq (a b : str) : a <> b -> str_eqb a b = false.
Proof.
  intros Hn. destruct (str_eqb a b) eqn:E; [|reflexivity].
  apply str_eqb_eq in E. contradiction.
Qed.

Lemma mem_In (x : str) (xs : list str) : mem x xs = true <-> In x xs.
Proof.
  unfold mem. rewrite existsb_exists. split.
  - intros (y & Hy & E). apply str_eqb_eq in E. now subst.
  - intros Hin. exists x. split; [exact Hin | apply str_eqb_refl].
Qed.

Lemma mem_app (x : str) (xs ys : list str) :
  mem x (xs ++ ys) = mem x xs || mem x ys.
Proof. apply existsb_app. Qed.

Lemma comma_not_space : isspace comma = false.
Proof. reflexivity. Qed.

Lemma lstrip_rstrip (s : str) : lstrip (rstrip s) = rstrip (lstrip s).
Proof.
  induction s as [|c s IH]; [reflexivity|].
  cbn [lstrip]. destruct (isspace c) eqn:Ec.
  - rewrite <- IH, rstrip_cons. destruct (rstrip s) as [|x t].
    + rewrite Ec. reflexivity.
    + cbn [lstrip]. rewrite Ec. reflexivity.
  - apply lstrip_fixed. rewrite rstrip_cons.
    destruct (rstrip s); [rewrite Ec|]; exact Ec.
Qed.

Lemma strip_lstrip (s : str) : strip (lstrip s) = strip s.
Proof. unfold strip. now rewrite lstrip_idem. Qed.

Lemma strip_rstrip (s : str) : strip (rstrip s) = strip s.
Proof. unfold strip. now rewrite lstrip_rstrip, rstrip_idem. Qed.

Lemma strip_space_cons (c : char) (s : str) :
  isspace c = true -> strip (c :: s) = strip s.
Proof. intros Hc. unfold strip. cbn [lstrip]. now rewrite Hc. Qed.

(** ** Splitting at commas *)

Lemma split_on_cons (sep c : char) (s : str) :
  split_on sep (c :: s) =
  if N.eqb c sep then [] :: split_on sep s
  else match split_on sep s with
       | piece :: pieces => (c :: piece) :: pieces
       | [] => [[c]]
       end.
Proof. reflexivity. Qed.

Lemma split_on_nonempty (sep : char) (s : str) : split_on sep s <> [].
Proof.
  destruct s as [|c s]; [discriminate|]. rewrite split_on_cons.
  destruct (N.eqb c sep); [discriminate|].
  destruct (split_on sep s); discriminate.
Qed.

Lemma split_on_cons_not_blank (sep x : char) (t : str) :
  split_on sep (x :: t) <> [[]].
Proof.
  rewrite split_on_cons. destruct (N.eqb x sep).
  - intros [= H]. exact (split_on_nonempty _ _ H).
  - destruct (split_on sep t); discriminate.
Qed.

Lemma split_on_app (sep : char) (a b : str) :
  split_on sep (a ++ sep :: b) = split_on sep a ++ split_on sep b.
Proof.
  induction a as [|c a IH].
  - cbn [app]. rewrite split_on_cons, N.eqb_refl. reflexivity.
  - cbn [app]. rewrite !split_on_cons, IH.
    destruct (N.eqb c sep); [reflexivity|].
    destruct (split_on sep a) as [|p ps] eqn:E; [|reflexivity].
    exfalso. exact (split_on_nonempty _ _ E).
Qed.

Lemma split_on_whole (sep : char) (s : str) :
  ~ In sep s -> split_on sep s = [s].
Proof.
  induction s as [|c s IH]; intros Hn; [reflexivity|].
  rewrite split_on_cons.
  destruct (N.eqb c sep) eqn:E.
  - apply N.eqb_eq in E. subst. exfalso. apply Hn. now left.
  - rewrite IH; [reflexivity|]. intros Hin. apply Hn. now right.
Qed.

Lemma split_on_pieces (sep : char) (s : str) : forall p,
  In p (split_on sep s) -> ~ In sep p /\ incl p s.
Proof.
  induction s as [|c s IH]; intros p.
  - intros [<-|[]]. split; [intros [] | apply incl_refl].
  - rewrite split_on_cons. destruct (N.eqb c sep) eqn:E.
    + intros [<-|Hin]; [split; [intros [] | intros x []]|].
      destruct (IH _ Hin) as [Hn Hi]. split; [exact Hn|].
      intros x Hx. right. now apply Hi.
    + destruct (split_on sep s) as [|q qs] eqn:Eq.
      { exfalso. exact (split_on_nonempty _ _ Eq). }
      intros [<-|Hin].
      * destruct (IH q (or_introl eq_refl)) as [Hn Hi]. split.
        -- intros [->|Hin]; [now rewrite N.eqb_refl in E | contradiction].
        -- intros x [<-|Hx]; [now left | right; now apply Hi].
      * destruct (IH p (or_intror Hin)) as [Hn Hi]. split; [exact Hn|].
        intros x Hx. right. now apply Hi.
Qed.

(** Stripping the whole text first changes no entry. *)
Lemma split_on_lstrip (s : str) :
  map strip (split_on comma (lstrip s)) = map strip (split_on comma s).
Proof.
  induction s as [|c s IH]; [reflexivity|].
  cbn [lstrip]. destruct (isspace c) eqn:Ec; [|reflexivity].
  rewrite IH, split_on_cons.
  destruct (N.eqb c comma) eqn:E.
  { apply N.eqb_eq in E. subst. discriminate. }
  destruct (split_on comma s) as [|p ps] eqn:Ep.
  { exfalso. exact (split_on_nonempty _ _ Ep). }
  cbn [map]. now rewrite strip_space_cons.
Qed.

Lemma map_last_length (A : Type) (f : A -> A) (l : list A) :
  length (map_last f l) = length l.
Proof.
  induction l as [|x [|y l] IH]; [reflexivity | reflexivity |].
  cbn [map_last length] in *. now rewrite IH.
Qed.

Lemma map_last_cons (A : Type) (f : A -> A) (x : A) (l : list A) :
  l <> [] -> map_last f (x :: l) = x :: map_last f l.
Proof. destruct l; [contradiction | reflexivity]. Qed.

Lemma split_on_rstrip (s : str) :
  split_on comma (rstrip s) = map_last rstrip (split_on comma s).
Proof.
  induction s as [|c s IH]; [reflexivity|].
  rewrite rstrip_cons, (split_on_cons comma c s).
  destruct (split_on comma s) as [|p ps] eqn:Ep.
  { exfalso. exact (split_on_nonempty _ _ Ep). }
  destruct (rstrip s) as [|x t] eqn:Er.
  - (* nothing but whitespace after [c] *)
    assert (Hps : ps = [] /\ rstrip p = []).
    { destruct ps as [|q qs]; [cbn in IH; injection IH as <-; auto|].
      exfalso. apply (f_equal (@length _)) in IH.
      rewrite map_last_length in IH. discriminate. }
    destruct Hps as [-> Hp].
    destruct (N.eqb c comma) eqn:E.
    + apply N.eqb_eq in E. subst c. rewrite comma_not_space.
      cbn. rewrite Hp. reflexivity.
    + cbn [map_last]. rewrite rstrip_cons, Hp.
      destruct (isspace c); [reflexivity|].
      rewrite split_on_cons, E. reflexivity.
  - rewrite split_on_cons. destruct (N.eqb c comma) eqn:E.
    + rewrite IH. symmetry. apply map_last_cons. discriminate.
    + rewrite IH. destruct ps as [|q qs].
      * cbn [map_last]. rewrite rstrip_cons.
        cbn [map_last] in IH. destruct (rstrip p) eqn:Hp; [|reflexivity].
        exfalso. exact (split_on_cons_not_blank _ _ _ IH).
      * reflexivity.
Qed.

Lemma map_strip_map_last (l : list str) :
  map strip (map_last rstrip l) = map strip l.
Proof.
  induction l as [|x [|y l] IH]; [reflexivity | |].
  - cbn. now rewrite strip_rstrip.
  - cbn [map_last map] in *. now rewrite IH.
Qed.

Lemma admins_of_strip (s : str) : admins_of (strip s) = admins_of s.
Proof.
  unfold admins_of, strip.
  rewrite split_on_rstrip, map_strip_map_last, split_on_lstrip. reflexivity.
Qed.

Lemma admins_of_app (a b : str) :
  admins_of (a ++ comma :: b) = admins_of a ++ admins_of b.
Proof. unfold admins_of. now rewrite split_on_app, map_app, filter_app. Qed.

(** ** Reading the file *)

Lemma universal_newlines_app_bounded (n : nat) : forall a b,
  length a <= n ->
  match b with d :: _ => N.eqb d 10 = false | [] => True end ->
  universal_newlines (a ++ b) = universal_newlines a ++ universal_newlines b.
Proof.
  induction n as [|n IH]; intros [|c a] b Hl Hb; try reflexivity;
    cbn [length] in Hl; try lia.
  cbn [app universal_newlines]. destruct (N.eqb c 13).
  - cbn [app]. f_equal. destruct a as [|d a].
    + cbn [app]. destruct b as [|d b]; [reflexivity|]. now rewrite Hb.
    + cbn [app length] in *. destruct (N.eqb d 10).
      * apply IH; [lia | exact Hb].
      * apply (IH (d :: a) b); [cbn [length]; lia | exact Hb].
  - cbn [app]. f_equal. apply IH; [lia | exact Hb].
Qed.

Lemma universal_newlines_comma (a b : str) :
  universal_newlines (a ++ comma :: b)
  = universal_newlines a ++ comma :: universal_newlines b.
Proof.
  etransitivity;
    [apply (universal_newlines_app_bounded (length a));
       [apply le_n | reflexivity]
    | reflexivity].
Qed.

Lemma is_admin_user_spec (user_id raw : str) :
  is_admin_user ReadOk user_id (Some raw)
  = mem user_id (admins_of (universal_newlines raw)).
Proof.
  unfold is_admin_user, read_content.
  rewrite <- (admins_of_strip (universal_newlines raw)).
  destruct (strip (universal_newlines raw)); reflexivity.
Qed.

(** ** Entries *)

Lemma admins_of_entries (s : str) :
  no_carriage_return s -> Forall entry (admins_of s).
Proof.
  intros Hcr. apply Forall_forall. intros a Ha.
  apply filter_In in Ha as [Ha Hne].
  apply in_map_iff in Ha as (p & <- & Hp).
  destruct (split_on_pieces _ _ _ Hp) as [Hc Hi]. repeat split.
  - intros E. rewrite E in Hne. discriminate.
  - apply strip_idem.
  - intros Hin. apply Hc. exact (strip_incl _ _ Hin).
  - intros Hin. apply Hcr, Hi. exact (strip_incl _ _ Hin).
Qed.

Lemma admins_of_entry (a : str) : entry a -> admins_of a = [a].
Proof.
  intros (Hne & Hs & Hc & _). unfold admins_of.
  rewrite split_on_whole by exact Hc. cbn [map]. rewrite Hs.
  destruct a; [contradiction | reflexivity].
Qed.

Lemma join_clean (l : list str) :
  Forall entry l -> no_carriage_return (join [comma] l).
Proof.
  unfold no_carriage_return.
  induction 1 as [|a l (_ & _ & _ & Ha) Hl IH]; [intros []|].
  destruct l as [|b l]; [exact Ha|].
  change (join [comma] (a :: b :: l)) with (a ++ comma :: join [comma] (b :: l)).
  intros Hin. apply in_app_or in Hin as [Hin|[Hin|Hin]]; auto. discriminate.
Qed.

Lemma admins_of_join (l : list str) :
  Forall entry l -> admins_of (join [comma] l) = l.
Proof.
  induction 1 as [|a l Ha Hl IH]; [reflexivity|].
  destruct l as [|b l]; [now apply admins_of_entry|].
  change (join [comma] (a :: b :: l)) with (a ++ comma :: join [comma] (b :: l)).
  rewrite admins_of_app, IH, admins_of_entry by exact Ha. reflexivity.
Qed.

Lemma list_remove_incl (a x : str) (l : list str) :
  In x (list_remove a l) -> In x l.
Proof.
  induction l as [|y l IH]; cbn [list_remove]; [tauto|].
  destruct (str_eqb a y); [now right|].
  intros [<-|Hin]; [now left | right; auto].
Qed.

Lemma mem_list_remove_other (a u : str) (l : list str) :
  u <> a -> mem u (list_remove a l) = mem u l.
Proof.
  intros Hne. induction l as [|y l IH]; [reflexivity|]. cbn [list_remove].
  destruct (str_eqb a y) eqn:E.
  - apply str_eqb_eq in E. subst y. unfold mem. cbn [existsb].
    now rewrite (str_eqb_neq _ _ Hne).
  - unfold mem in *. cbn [existsb]. now rewrite IH.
Qed.

Lemma mem_list_remove_once (a : str) (l : list str) :
  length (filter (str_eqb a) l) = 1 -> mem a (list_remove a l) = false.
Proof.
  induction l as [|y l IH]; [discriminate|]. cbn [filter list_remove].
  destruct (str_eqb a y) eqn:E.
  - cbn [length]. intros [= Hl]. apply length_zero_iff_nil in Hl.
    destruct (mem a l) eqn:Em; [|reflexivity].
    apply mem_In in Em. assert (Hin : In a (filter (str_eqb a) l)).
    { apply filter_In. split; [exact Em | apply str_eqb_refl]. }
    rewrite Hl in Hin. destruct Hin.
  - intros Hl. unfold mem in *. cbn [existsb]. rewrite E. now apply IH.
Qed.

Lemma list_remove_last (a : str) (l : list str) :
  mem a l = false -> list_remove a (l ++ [a]) = l.
Proof.
  induction l as [|y l IH]; cbn [app list_remove].
  - now rewrite str_eqb_refl.
  - unfold mem. cbn [existsb]. intros H. apply orb_false_iff in H as [E Hm].
    rewrite E. f_equal. now apply IH.
Qed.

(** ** The operations *)

(** X10.  Who is an admin: with a readable file, exactly the non-empty
    texts that are one of the comma-separated pieces of the file with the
    whitespace around it removed.  Without a file, or when reading raises,
    nobody is. *)
Theorem is_admin_user_iff (rd : read_io) (user_id : str) (file : admins_file) :
  is_admin_user rd user_id file = true <->
  rd = ReadOk /\ user_id <> [] /\
  exists raw piece,
    file = Some raw /\
    In piece (split_on comma (universal_newlines raw)) /\
    strip piece = user_id.
Proof.
  destruct file as [raw|]; [destruct rd|].
  - rewrite is_admin_user_spec, mem_In. unfold admins_of.
    rewrite filter_In, in_map_iff. split.
    + intros [(p & Hp & Hin) Hne]. split; [reflexivity|]. split.
      * intros E. rewrite E in Hne. discriminate.
      * now exists raw, p.
    + intros (_ & Hne & raw' & p & [= <-] & Hin & Hp). split.
      * now exists p.
      * destruct user_id; [contradiction | reflexivity].
  - split; [discriminate | intros ([=] & _)].
  - split; [discriminate | intros (_ & _ & ? & ? & [=] & _)].
Qed.

(** X11.  Adding an id that is not blank and not yet an admin, with no I/O
    error, returns [True] and writes once: whoever was an admin still is,
    and the new admins are the comma-separated parts of the id as it reads
    back (an id with a comma in it adds its parts, not itself). *)
Theorem add_admin_to_file_admins (new_admin : str) (file : admins_file) :
  strip new_admin <> [] ->
  is_admin_user ReadOk (strip new_admin) file = false ->
  exists file',
    add_admin_to_file ReadOk WriteOk new_admin file = (true, file') /\
    forall user_id,
      is_admin_user ReadOk user_id file'
      = is_admin_user ReadOk user_id file
        || mem user_id (admins_of (universal_newlines (strip new_admin))).
Proof.
  intros Hne Hnot. unfold add_admin_to_file. rewrite Hnot.
  destruct (strip new_admin) as [|c x] eqn:Ex; [contradiction|].
  cbn [nonempty negb]. eexists. split; [reflexivity|]. intros u.
  destruct file as [raw|].
  - rewrite !is_admin_user_spec, universal_newlines_comma, admins_of_app.
    apply mem_app.
  - rewrite is_admin_user_spec. reflexivity.
Qed.

Lemma add_admin_to_file_admins_witness :
  exists file',
    add_admin_to_file ReadOk WriteOk (py " 42,eve ") (Some (py "7")) = (true, file') /\
    forall user_id,
      is_admin_user ReadOk user_id file'
      = is_admin_user ReadOk user_id (Some (py "7"))
        || mem user_id (admins_of (universal_newlines (strip (py " 42,eve ")))).
Proof.
  apply (add_admin_to_file_admins (py " 42,eve ") (Some (py "7")));
    [vm_compute; discriminate | vm_compute; reflexivity].
Defined.

(** X12.  Round trip.  For an id that, stripped, is not empty and has no
    comma and no carriage return, [add_admin_to_file] with no I/O error
    returns [True]; afterwards the stripped id is an admin, and every other
    user is an admin exactly when they were before. *)
Theorem add_admin_then_is_admin (new_admin : str) (file : admins_file) :
  strip new_admin <> [] ->
  ~ In comma (strip new_admin) ->
  no_carriage_return (strip new_admin) ->
  exists file',
    add_admin_to_file ReadOk WriteOk new_admin file = (true, file') /\
    is_admin_user ReadOk (strip new_admin) file' = true /\
    forall user_id, user_id <> strip new_admin ->
      is_admin_user ReadOk user_id file' = is_admin_user ReadOk user_id file.
Proof.
  intros Hne Hc Hcr.
  destruct (is_admin_user ReadOk (strip new_admin) file) eqn:Ea.
  - exists file. unfold add_admin_to_file. rewrite Ea.
    destruct (strip new_admin); [contradiction|]. auto.
  - destruct (add_admin_to_file_admins new_admin file Hne Ea)
      as (file' & Hadd & Hafter).
    assert (Hx : admins_of (universal_newlines (strip new_admin))
                 = [strip new_admin]).
    { rewrite ServersProps.universal_newlines_fixed by exact Hcr.
      apply admins_of_entry. repeat split; auto. apply strip_idem. }
    exists file'. split; [exact Hadd|]. split.
    + rewrite Hafter, Hx. unfold mem. cbn [existsb].
      rewrite str_eqb_refl. apply orb_true_iff. right. reflexivity.
    + intros u Hu. rewrite Hafter, Hx. unfold mem. cbn [existsb].
      rewrite (str_eqb_neq _ _ Hu). now rewrite !orb_false_r.
Qed.

Lemma add_admin_then_is_admin_witness :
  exists file',
    add_admin_to_file ReadOk WriteOk (py " eve ") (Some (py "7, bob")) = (true, file') /\
    is_admin_user ReadOk (strip (py " eve ")) file' = true /\
    forall user_id, user_id <> strip (py " eve ") ->
      is_admin_user ReadOk user_id file'
      = is_admin_user ReadOk user_id (Some (py "7, bob")).
Proof.
  apply (add_admin_then_is_admin (py " eve ") (Some (py "7, bob"))).
  - vm_compute; discriminate.
  - vm_compute. intuition discriminate.
  - vm_compute. intuition discriminate.
Defined.

(** X13.  A user who is not an admin cannot be removed: [remove_admin]
    returns [False] and leaves the file as it was, whatever the I/O does. *)
Theorem remove_admin_not_admin (rd : read_io) (wr : write_io) (admin_id : str)
  (file : admins_file) :
  is_admin_user ReadOk admin_id file = false ->
  remove_admin rd wr admin_id file = (false, file).
Proof.
  unfold is_admin_user, remove_admin.
  destruct file as [raw|]; [|reflexivity].
  destruct rd; [|reflexivity].
  destruct (negb (nonempty (read_content raw))); [reflexivity|].
  intros ->. reflexivity.
Qed.

Lemma remove_admin_not_admin_witness :
  remove_admin ReadOk WriteOk (py "eve") (Some (py "7, bob"))
  = (false, Some (py "7, bob")).
Proof.
  apply (remove_admin_not_admin ReadOk WriteOk (py "eve") (Some (py "7, bob"))).
  vm_compute. reflexivity.
Defined.

Lemma remove_admin_spec (admin_id raw : str) :
  is_admin_user ReadOk admin_id (Some raw) = true ->
  remove_admin ReadOk WriteOk admin_id (Some raw)
  = (true,
     Some (join [comma]
             (list_remove admin_id (admins_of (universal_newlines raw))))) /\
  forall user_id,
    is_admin_user ReadOk user_id
      (Some (join [comma]
               (list_remove admin_id (admins_of (universal_newlines raw)))))
    = mem user_id (list_remove admin_id (admins_of (universal_newlines raw))).
Proof.
  intros Ha. split.
  - unfold remove_admin. unfold is_admin_user in Ha.
    rewrite <- (admins_of_strip (universal_newlines raw)).
    fold (read_content raw) in *.
    destruct (negb (nonempty (read_content raw))); [discriminate|].
    rewrite Ha. reflexivity.
  - intros u. rewrite is_admin_user_spec.
    assert (He : Forall entry
                   (list_remove admin_id (admins_of (universal_newlines raw)))).
    { apply Forall_forall. intros x Hx. apply list_remove_incl in Hx.
      pose proof (admins_of_entries (universal_newlines raw)
                    (InventoryProps.universal_newlines_clean raw)) as Hall.
      rewrite Forall_forall in Hall. auto. }
    rewrite ServersProps.universal_newlines_fixed by (apply join_clean, He).
    now rewrite admins_of_join.
Qed.

(** X14.  Removing an admin, with no I/O error, returns [True] and touches
    nobody else: every other user is an admin afterwards exactly when they
    were before; the removed one no longer is when the file listed them
    once. *)
Theorem remove_admin_revokes (admin_id raw : str) :
  is_admin_user ReadOk admin_id (Some raw) = true ->
  exists file',
    remove_admin ReadOk WriteOk admin_id (Some raw) = (true, file') /\
    (forall user_id, user_id <> admin_id ->
       is_admin_user ReadOk user_id file'
       = is_admin_user ReadOk user_id (Some raw)) /\
    (length (filter (str_eqb admin_id) (admins_of (universal_newlines raw))) = 1 ->
     is_admin_user ReadOk admin_id file' = false).
Proof.
  intros Ha. destruct (remove_admin_spec admin_id raw Ha) as [Hrem Hafter].
  eexists. split; [exact Hrem|]. split.
  - intros u Hu. rewrite Hafter, is_admin_user_spec.
    now apply mem_list_remove_other.
  - intros Hone. rewrite Hafter. now apply mem_list_remove_once.
Qed.

Lemma remove_admin_revokes_witness :
  exists file',
    remove_admin ReadOk WriteOk (py "bob") (Some (py "7, bob ,eve"))
    = (true, file') /\
    (forall user_id, user_id <> py "bob" ->
       is_admin_user ReadOk user_id file'
       = is_admin_user ReadOk user_id (Some (py "7, bob ,eve"))) /\
    (length (filter (str_eqb (py "bob"))
               (admins_of (universal_newlines (py "7, bob ,eve")))) = 1 ->
     is_admin_user ReadOk (py "bob") file' = false).
Proof.
  apply (remove_admin_revokes (py "bob") (py "7, bob ,eve")).
  vm_compute. reflexivity.
Defined.

(** X15.  Adding then removing.  For an id as in X12 that is not yet an
    admin, adding it and then removing it, with no I/O error, leaves
    everybody as they were: the same users are admins as before the two
    calls. *)
Theorem add_then_remove_admin (new_admin : str) (file : admins_file) :
  strip new_admin <> [] ->
  ~ In comma (strip new_admin) ->
  no_carriage_return (strip new_admin) ->
  is_admin_user ReadOk (strip new_admin) file = false ->
  exists added removed,
    add_admin_to_file ReadOk WriteOk new_admin file = (true, added) /\
    remove_admin ReadOk WriteOk (strip new_admin) added = (true, removed) /\
    forall user_id,
      is_admin_user ReadOk user_id removed = is_admin_user ReadOk user_id file.
Proof.
  intros Hne Hc Hcr Hnot.
  assert (Hx : admins_of (strip new_admin) = [strip new_admin]).
  { apply admins_of_entry. repeat split; auto. apply strip_idem. }
  unfold add_admin_to_file. rewrite Hnot.
  destruct (strip new_admin) as [|c x] eqn:Ex; [contradiction|].
  cbn [nonempty negb]. rewrite <- Ex in *.
  set (old := admins_of (universal_newlines
                           (match file with Some raw => raw | None => [] end))).
  assert (Hold : forall u, is_admin_user ReadOk u file = mem u old).
  { intros u. subst old. destruct file as [raw|]; [apply is_admin_user_spec|].
    reflexivity. }
  set (content := match file with Some raw => raw | None => [] end
                  ++ (if match file with Some _ => true | None => false end
                      then comma :: strip new_admin else strip new_admin)).
  assert (Hnew : admins_of (universal_newlines content) = old ++ [strip new_admin]).
  { subst content old. destruct file as [raw|].
    - rewrite universal_newlines_comma, admins_of_app.
      rewrite (ServersProps.universal_newlines_fixed _ Hcr), Hx. reflexivity.
    - cbn [app]. rewrite (ServersProps.universal_newlines_fixed _ Hcr), Hx.
      reflexivity. }
  assert (Hin : is_admin_user ReadOk (strip new_admin) (Some content) = true).
  { rewrite is_admin_user_spec, Hnew, mem_app. unfold mem at 2.
    cbn [existsb]. rewrite str_eqb_refl. apply orb_true_iff. now right. }
  destruct (remove_admin_spec (strip new_admin) content Hin) as [Hrem Hafter].
  eexists. eexists. split; [reflexivity|]. split; [exact Hrem|].
  intros u. rewrite Hafter, Hnew, list_remove_last; [now rewrite Hold|].
  now rewrite <- Hold.
Qed.

Lemma add_then_remove_admin_witness :
  exists added removed,
    add_admin_to_file ReadOk WriteOk (py " eve ") (Some (py "7, bob")) = (true, added) /\
    remove_admin ReadOk WriteOk (strip (py " eve ")) added = (true, removed) /\
    forall user_id,
      is_admin_user ReadOk user_id removed
      = is_admin_user ReadOk user_id (Some (py "7, bob")).
Proof.
  apply (add_then_remove_admin (py " eve ") (Some (py "7, bob"))).
  - vm_compute; discriminate.
  - vm_compute. intuition discriminate.
  - vm_compute. intuition discriminate.
  - vm_compute. reflexivity.
Defined.

End AuthenticationProps.

(* ================================================================== *)
(** * More on the command filter and the sanitizer *)
(* ================================================================== *)

Module FilterProps.
Import PyStr PyStrFacts Re Utils Invariants.

(** ** Stripping, once more *)

Lemma lstrip_spaces (ws s : str) :
  forallb isspace ws = true -> lstrip (ws ++ s) = lstrip s.
Proof.
  induction ws as [|w ws IH]; cbn [forallb app lstrip]; [reflexivity|].
  intros H. apply andb_true_iff in H as [-> H]. auto.
Qed.

Lemma rstrip_app (u v : str) :
  rstrip (u ++ v) = match rstrip v with [] => rstrip u | l => u ++ l end.
Proof.
  unfold rstrip. rewrite rev_app_distr, lstrip_app.
  destruct (lstrip (rev v)) as [|x l] eqn:E; [reflexivity|].
  rewrite rev_app_distr, rev_involutive.
  destruct (rev (x :: l)) eqn:E'; [|reflexivity].
  apply (f_equal (@length _)) in E'. rewrite length_rev in E'. discriminate.
Qed.

Lemma rstrip_spaces (s ws : str) :
  forallb isspace ws = true -> rstrip (s ++ ws) = rstrip s.
Proof.
  intros H. unfold rstrip. rewrite rev_app_distr, lstrip_spaces; [reflexivity|].
  rewrite forallb_forall in *. intros x Hx. apply H. now apply in_rev.
Qed.

Lemma strip_padding (ws1 s ws2 : str) :
  forallb isspace ws1 = true -> forallb isspace ws2 = true ->
  strip (ws1 ++ s ++ ws2) = strip s.
Proof.
  intros H1 H2. unfold strip. rewrite lstrip_spaces by exact H1.
  rewrite lstrip_app. destruct (lstrip s) as [|x l] eqn:E.
  - rewrite <- (app_nil_r ws2), lstrip_spaces by exact H2. reflexivity.
  - now rewrite rstrip_spaces.
Qed.

(** A factor that begins and ends with a character that is not whitespace
    is still there after stripping. *)
Lemma strip_keeps_factor (a b f : str) (x y : char) (rest front : str) :
  f = x :: rest -> f = front ++ [y] ->
  isspace x = false -> isspace y = false ->
  exists a' b', strip (a ++ f ++ b) = a' ++ f ++ b'.
Proof.
  intros Hx Hy Ex Ey. unfold strip.
  assert (Hl : exists a', lstrip (a ++ f ++ b) = a' ++ f ++ b).
  { rewrite lstrip_app. destruct (lstrip a) as [|c l].
    - exists []. rewrite Hx. cbn [app lstrip]. now rewrite Ex.
    - now exists (c :: l). }
  destruct Hl as [a' ->]. exists a', (rstrip b).
  rewrite Hy at 1. rewrite <- app_assoc, app_assoc.
  cbn [app]. rewrite rstrip_app, rstrip_cons.
  replace (a' ++ f ++ rstrip b) with ((a' ++ front) ++ y :: rstrip b).
  - destruct (rstrip b); [rewrite Ey|]; reflexivity.
  - rewrite Hy, <- !app_assoc. reflexivity.
Qed.

(** ** The dangerous patterns *)

Lemma check_dangerous_none (command : str) (patterns : list regex) :
  check_dangerous command patterns = None <->
  forall pattern, In pattern patterns -> search true pattern command = false.
Proof.
  induction patterns as [|p ps IH]; cbn [check_dangerous].
  - split; [intros _ ? [] | reflexivity].
  - destruct (search true p command) eqn:E.
    + split; [discriminate|]. intros Hall.
      rewrite (Hall p (or_introl eq_refl)) in E. discriminate.
    + rewrite IH. split.
      * intros Hall x [<-|Hx]; auto.
      * intros Hall x Hx. apply Hall. now right.
Qed.

Lemma check_dangerous_some (command : str) (patterns : list regex)
  (v : verdict) :
  check_dangerous command patterns = Some v ->
  v = (false, Some (py "Command contains dangerous pattern")).
Proof.
  induction patterns as [|p ps IH]; cbn [check_dangerous]; [discriminate|].
  destruct (search true p command); [intros [= <-]; reflexivity | exact IH].
Qed.

Lemma Matches_Cat_inv (r1 r2 : regex) (s : str) :
  Matches true (Cat r1 r2) s ->
  exists s1 s2, s = s1 ++ s2 /\ Matches true r1 s1 /\ Matches true r2 s2.
Proof. inversion 1; subst. eauto. Qed.

Lemma Matches_Lit_inv (l : char) (s : str) :
  Matches true (Lit l) s -> exists c, s = [c] /\ lit_matches true l c = true.
Proof. inversion 1; subst. eauto. Qed.

Lemma Matches_Eps_inv (s : str) : Matches true Eps s -> s = [].
Proof. inversion 1; reflexivity. Qed.

(** A character that matches a literal is not whitespace, when the literal
    is not and is either below the ASCII capitals or a small letter whose
    capital is not whitespace. *)
Lemma lit_matches_not_space (l c : char) :
  lit_matches true l c = true ->
  isspace l = false ->
  ((97 <= l)%N /\ isspace (l - 32)%N = false) \/ (l < 65)%N ->
  isspace c = false.
Proof.
  unfold lit_matches, ascii_lower. intros Hm Hl Hr.
  apply N.eqb_eq in Hm.
  destruct ((65 <=? c) && (c <=? 90))%N eqn:Ec;
    destruct ((65 <=? l) && (l <=? 90))%N eqn:El.
  - apply andb_true_iff in El as [E1 E2]. apply N.leb_le in E1, E2. lia.
  - apply andb_true_iff in Ec as [E1 E2]. apply N.leb_le in E1, E2.
    destruct Hr as [[_ Hu]|Hr]; [|lia].
    assert (Hc : (c = l - 32)%N) by lia. rewrite Hc. exact Hu.
  - apply andb_true_iff in El as [E1 E2]. apply N.leb_le in E1, E2. lia.
  - rewrite Hm. exact Hl.
Qed.

Lemma ends_with_single (P : char -> Prop) (y : char) :
  P y -> ends_with P [y].
Proof. intros Hy. now exists [], y. Qed.

Lemma ends_with_cons (P : char -> Prop) (c : char) (s : str) :
  ends_with P s -> ends_with P (c :: s).
Proof. intros (front & y & -> & Hy). now exists (c :: front), y. Qed.

Lemma ends_with_app (P : char -> Prop) (u s : str) :
  ends_with P s -> ends_with P (u ++ s).
Proof.
  intros (front & y & -> & Hy). exists (u ++ front), y.
  now rewrite app_assoc.
Qed.

Ltac invert_matches :=
  repeat match goal with
  | H : Matches true (Cat _ _) _ |- _ =>
      apply Matches_Cat_inv in H as (? & ? & ? & ? & ?)
  | H : Matches true (Lit _) _ |- _ =>
      apply Matches_Lit_inv in H as (? & ? & ?)
  | H : Matches true Eps _ |- _ => apply Matches_Eps_inv in H
  end.

Ltac literal_not_space :=
  match goal with
  | H : lit_matches true ?l ?c = true |- isspace ?c = false =>
      apply (lit_matches_not_space l c H);
      [ reflexivity
      | first [ right; reflexivity
              | left; split; [vm_compute; discriminate | reflexivity] ] ]
  end.

(** What matches a dangerous pattern begins and ends with a character that
    is not whitespace. *)
Lemma dangerous_ends (pattern : regex) (f : str) :
  In pattern dangerous_patterns -> Matches true pattern f ->
  (exists x rest, f = x :: rest /\ isspace x = false) /\
  ends_with (fun y => isspace y = false) f.
Proof.
  intros Hin Hm.
  cbv [dangerous_patterns lit py map list_ascii_of_string Seq Plus] in Hin.
  cbn [In] in Hin.
  destruct Hin as [<-|[<-|[<-|[<-|[<-|[]]]]]];
    invert_matches; subst; rewrite ?app_nil_r; cbn [app];
    (split;
     [ eexists; eexists; split; [reflexivity | literal_not_space]
     | repeat first [ apply ends_with_single | apply ends_with_cons
                    | apply ends_with_app ];
       cbv beta; literal_not_space ]).
Qed.

Section Verdicts.
Context `{Lowering}.

(** The verdict is an acceptance without a reason or a rejection with
    one. *)
Lemma validate_command_verdict (command : str) (blocked_commands : list str)
  (allowed_prefixes : option (list str)) :
  validate_command command blocked_commands allowed_prefixes = (true, None) \/
  exists reason,
    validate_command command blocked_commands allowed_prefixes
    = (false, Some reason).
Proof.
  unfold validate_command.
  destruct (check_blocked _ _) as [v|] eqn:Eb.
  { apply UtilsProps.check_blocked_some in Eb as (b & _ & _ & ->). eauto. }
  destruct (check_dangerous _ _) as [v|] eqn:Ed.
  { apply check_dangerous_some in Ed as ->. eauto. }
  unfold check_allowed.
  destruct allowed_prefixes as [[|p l]|]; auto.
  destruct (split _); auto.
  destruct (negb _); eauto.
Qed.

(** X16.  Whatever the blocklist and the allow-list, a command that
    contains text matching one of the five dangerous patterns (in any letter
    case, with any whitespace where the pattern has [\s]) is rejected; and
    a command that is accepted has, once stripped, no such text in it. *)
Theorem dangerous_text_rejected (command : str) (blocked_commands : list str)
  (allowed_prefixes : option (list str)) :
  (forall pattern a f b,
     In pattern dangerous_patterns -> Matches true pattern f ->
     command = a ++ f ++ b ->
     fst (validate_command command blocked_commands allowed_prefixes) = false) /\
  (validate_command command blocked_commands allowed_prefixes = (true, None) ->
   forall pattern a f b,
     In pattern dangerous_patterns -> strip command = a ++ f ++ b ->
     ~ Matches true pattern f).
Proof.
  split.
  - intros pattern a f b Hin Hm ->.
    destruct (dangerous_ends pattern f Hin Hm)
      as [(x & rest & Hx & Ex) (front & y & Hy & Ey)].
    destruct (strip_keeps_factor a b f x y rest front Hx Hy Ex Ey)
      as (a' & b' & Hs).
    unfold validate_command.
    destruct (check_blocked _ _) as [v|] eqn:Eb.
    { apply UtilsProps.check_blocked_some in Eb as (? & _ & _ & ->).
      reflexivity. }
    destruct (check_dangerous _ _) as [v|] eqn:Ed.
    { apply check_dangerous_some in Ed as ->. reflexivity. }
    exfalso.
    pose proof (proj1 (check_dangerous_none _ _) Ed pattern Hin) as Hno.
    assert (Hyes : search true pattern (strip (a ++ f ++ b)) = true).
    { apply ReFacts.search_spec. exists a', f, b'. auto. }
    rewrite Hyes in Hno. discriminate.
  - unfold validate_command. intros Hok pattern a f b Hin Hs Hm.
    destruct (check_blocked _ _) as [v|] eqn:Eb.
    { apply UtilsProps.check_blocked_some in Eb as (? & _ & _ & ->).
      discriminate. }
    destruct (check_dangerous _ _) as [v|] eqn:Ed.
    { apply check_dangerous_some in Ed as ->. discriminate. }
    pose proof (proj1 (check_dangerous_none _ _) Ed pattern Hin) as Hno.
    assert (Hyes : search true pattern (strip command) = true).
    { apply ReFacts.search_spec. exists a, f, b. auto. }
    rewrite Hyes in Hno. discriminate.
Qed.

(** X17.  Whitespace around a command changes nothing: the verdict for a
    command padded with whitespace on either side is the verdict for the
    command. *)
Theorem validate_command_padding (ws1 command ws2 : str)
  (blocked_commands : list str) (allowed_prefixes : option (list str)) :
  forallb isspace ws1 = true -> forallb isspace ws2 = true ->
  validate_command (ws1 ++ command ++ ws2) blocked_commands allowed_prefixes
  = validate_command command blocked_commands allowed_prefixes.
Proof.
  intros H1 H2. unfold validate_command.
  now rewrite (strip_padding ws1 command ws2 H1 H2).
Qed.

End Verdicts.

Lemma dangerous_text_rejected_witness :
  fst (validate_command
         (py "echo hi &&" ++ [9%N] ++ py "RM  -Rf ~")
         Config.BLOCKED_COMMANDS (Some Config.ALLOWED_COMMAND_PREFIXES))
  = false.
Proof.
  apply (proj1 (dangerous_text_rejected (H := latin1)
                  (py "echo hi &&" ++ [9%N] ++ py "RM  -Rf ~")
                  Config.BLOCKED_COMMANDS (Some Config.ALLOWED_COMMAND_PREFIXES))
           (Seq [lit "&&"; Star Space; lit "rm"; Plus Space; lit "-rf"])
           (py "echo hi ") (py "&&" ++ [9%N] ++ py "RM  -Rf") (py " ~")).
  - right. left. reflexivity.
  - cbv [py map list_ascii_of_string app].
    repeat apply ReFacts.deriv_sound.
    apply ReFacts.nullable_sound. vm_compute. reflexivity.
  - vm_compute. reflexivity.
Defined.

Lemma validate_command_padding_witness :
  validate_command ([9%N; 32%N] ++ py "ls -la" ++ [10%N])
    Config.BLOCKED_COMMANDS None
  = validate_command (py "ls -la") Config.BLOCKED_COMMANDS None.
Proof.
  apply (validate_command_padding (H := latin1) [9%N; 32%N] (py "ls -la") [10%N]);
    reflexivity.
Defined.

(** X18.  The texts [sanitize_input] leaves as they are, are exactly those
    with no control character, at most 1000 code points, and no whitespace
    at either end. *)
Theorem sanitize_input_fixed_points (text : str) :
  sanitize_input text = text <->
  (forall c, In c text -> is_control c = false) /\
  length text <= 1000 /\
  strip text = text.
Proof.
  split.
  - intros Hfix. split; [|split].
    + intros c Hc. rewrite <- Hfix in Hc.
      exact (UtilsProps.sanitize_input_no_control _ _ Hc).
    + rewrite <- Hfix. apply UtilsProps.sanitize_input_length.
    + rewrite <- Hfix. unfold sanitize_input. apply strip_idem.
  - intros (Hc & Hl & Hs). now apply UtilsProps.sanitize_input_fixed.
Qed.

End FilterProps.

(* ================================================================== *)
(** * Properties of [handle_command] and of the default commands *)
(* ================================================================== *)

Module BotProps.
Import PyStr PyStrFacts Re Utils Servers Authentication UtilsFormat Bot
  Scenarios.

Lemma cons_neq (A : Type) (x : A) (l : list A) : l <> x :: l.
Proof.
  intros E. apply (f_equal (@length _)) in E. cbn [length] in E. lia.
Qed.

Section HandleCommandProps.
Context `{Lowering}.
Variable SSH_TIMEOUT : Z.

(** The state after a call that reached the transport. *)
Lemma do_command_state (reply : exec_reply) (command : str) (timeout : Z)
  (st : state) :
  snd (do_command reply command timeout st) = st \/
  snd (do_command reply command timeout st)
  = {| _ssh_client := _ssh_client st;
       _is_connected := _is_connected st;
       _connected_server_info := _connected_server_info st;
       transport_io := EvExecCommand command timeout :: transport_io st |}.
Proof.
  unfold do_command. destruct (negb _ || negb _); [now left|].
  right. destruct reply; reflexivity.
Qed.

(** X19.  [handle_command] asks the transport for at most one thing, and
    only when the session is connected and the filter accepts the sanitized
    text: it then runs exactly that text, with the configured timeout, and
    changes nothing else.  In every other case the state is as it was. *)
Theorem handle_command_transport (reply : exec_reply) (text : str)
  (st : state) :
  snd (handle_command SSH_TIMEOUT reply text st) = st \/
  (is_connected_to_server st = true /\
   validate_command (sanitize_input text) Config.BLOCKED_COMMANDS None
   = (true, None) /\
   snd (handle_command SSH_TIMEOUT reply text st)
   = {| _ssh_client := _ssh_client st;
        _is_connected := _is_connected st;
        _connected_server_info := _connected_server_info st;
        transport_io :=
          EvExecCommand (sanitize_input text) SSH_TIMEOUT :: transport_io st |}).
Proof.
  unfold handle_command.
  destruct (is_connected_to_server st) eqn:Ec; [|now left]. cbn [negb].
  destruct (FilterProps.validate_command_verdict (sanitize_input text)
              Config.BLOCKED_COMMANDS None) as [Hv|[reason Hv]];
    rewrite Hv; cbn [negb]; [|now left].
  destruct (do_command_state reply (sanitize_input text) SSH_TIMEOUT st)
    as [Hs|Hs];
    destruct (do_command reply (sanitize_input text) SSH_TIMEOUT st)
      as [[stdout stderr] st'] eqn:Ed; cbn [snd] in *; subst st'.
  - left. destruct stderr as [[|]|]; reflexivity.
  - right. split; [reflexivity|]. split; [reflexivity|].
    destruct stderr as [[|]|]; reflexivity.
Qed.

(** X20.  Whatever [handle_command] sends to the transport has at most 1000
    code points, no control character and no whitespace at its ends,
    contains none of the blocked patterns of the configuration and no text
    matching a dangerous pattern, and is run with the configured timeout. *)
Theorem handle_command_sends_clean (reply : exec_reply) (text : str)
  (st : state) (command : str) (timeout : Z) :
  transport_io (snd (handle_command SSH_TIMEOUT reply text st))
  = EvExecCommand command timeout :: transport_io st ->
  timeout = SSH_TIMEOUT /\
  length command <= 1000 /\
  (forall c, In c command -> is_control c = false) /\
  strip command = command /\
  (forall blocked, In blocked Config.BLOCKED_COMMANDS ->
     contains (lower command) (lower blocked) = false) /\
  (forall pattern a f b,
     In pattern dangerous_patterns -> command = a ++ f ++ b ->
     ~ Matches true pattern f).
Proof.
  intros Hio.
  destruct (handle_command_transport reply text st) as [Hs|(_ & Hv & Hs)];
    rewrite Hs in Hio.
  { exfalso. exact (cons_neq _ _ _ Hio). }
  cbn [transport_io] in Hio. injection Hio as <- <-.
  assert (Hstrip : strip (sanitize_input text) = sanitize_input text).
  { unfold sanitize_input. apply strip_idem. }
  split; [reflexivity|].
  split; [apply UtilsProps.sanitize_input_length|].
  split; [apply UtilsProps.sanitize_input_no_control|].
  split; [exact Hstrip|]. split.
  - apply UtilsProps.check_blocked_none. rewrite <- Hstrip.
    unfold validate_command in Hv.
    destruct (check_blocked _ _) as [v|] eqn:Eb; [|reflexivity].
    apply UtilsProps.check_blocked_some in Eb as (? & _ & _ & ->).
    discriminate.
  - intros pattern a f b Hin Hc.
    apply (proj2 (FilterProps.dangerous_text_rejected (sanitize_input text)
                    Config.BLOCKED_COMMANDS None) Hv pattern a f b Hin).
    now rewrite Hstrip.
Qed.

(** X21.  The reply when nothing is run.  Not connected: the fixed text
    that asks to connect.  Connected and rejected by the filter: the text
    ["Command rejected: "] followed by the filter's reason, which names a
    blocked pattern of the configuration or is the generic one. *)
Theorem handle_command_refusals (reply : exec_reply) (text : str)
  (st : state) :
  (is_connected_to_server st = false ->
   fst (handle_command SSH_TIMEOUT reply text st)
   = py "I'm not connected to any server." ++ nl
       ++ py "Please connect me with /connect command") /\
  (is_connected_to_server st = true ->
   fst (validate_command (sanitize_input text) Config.BLOCKED_COMMANDS None)
   = false ->
   exists reason,
     fst (handle_command SSH_TIMEOUT reply text st)
     = py "Command rejected: " ++ reason /\
     (reason = py "Command contains dangerous pattern" \/
      exists blocked, In blocked Config.BLOCKED_COMMANDS /\
        reason = py "Command contains blocked pattern: " ++ blocked)).
Proof.
  unfold handle_command. split; intros Hc; rewrite Hc; [reflexivity|].
  cbn [negb]. intros Hrej. unfold validate_command in *.
  destruct (check_blocked _ _) as [v|] eqn:Eb.
  { apply UtilsProps.check_blocked_some in Eb as (b & Hb & _ & ->).
    eexists. split; [reflexivity|]. right. now exists b. }
  destruct (check_dangerous _ _) as [v|] eqn:Ed.
  { apply FilterProps.check_dangerous_some in Ed as ->.
    eexists. split; [reflexivity|]. now left. }
  discriminate.
Qed.

End HandleCommandProps.

Lemma handle_command_sends_clean_witness :
  10%Z = 10%Z /\
  length (py "ls") <= 1000 /\
  (forall c, In c (py "ls") -> is_control c = false) /\
  strip (py "ls") = py "ls" /\
  (forall blocked, In blocked Config.BLOCKED_COMMANDS ->
     contains (lower (py "ls")) (lower blocked) = false) /\
  (forall pattern a f b,
     In pattern dangerous_patterns -> py "ls" = a ++ f ++ b ->
     ~ Matches true pattern f).
Proof.
  apply (handle_command_sends_clean (H := latin1) 10 (ExecOk [py "a"] [])
           (py " ls ") (run bob_connected) (py "ls") 10).
  reflexivity.
Defined.

Lemma handle_command_refusals_witness :
  fst (handle_command 10 (ExecOk [] []) (py "ls") initial)
  = py "I'm not connected to any server." ++ nl
      ++ py "Please connect me with /connect command".
Proof.
  apply (proj1 (handle_command_refusals (H := latin1) 10 (ExecOk [] [])
                  (py "ls") initial)).
  reflexivity.
Defined.

(** ** The default commands *)

Lemma readlines_from_In (s : str) : forall acc line,
  ~ In 10%N acc -> In line (readlines_from acc s) ->
  exists body,
    ~ In 10%N body /\ incl body (rev acc ++ s) /\
    (line = body \/ line = body ++ [10%N]).
Proof.
  induction s as [|c s IH]; intros acc line Hacc; cbn [readlines_from].
  - destruct acc as [|a acc]; [intros []|]. intros [<-|[]].
    exists (rev (a :: acc)). split; [|split].
    + intros Hin. apply Hacc. now apply in_rev.
    + rewrite app_nil_r. apply incl_refl.
    + now left.
  - destruct (N.eqb c 10) eqn:Ec.
    + apply N.eqb_eq in Ec. subst c. intros [<-|Hin].
      * exists (rev acc). split; [|split].
        -- intros Hin. apply Hacc. now apply in_rev.
        -- apply incl_appl, incl_refl.
        -- now right.
      * destruct (IH [] line (fun x => x) Hin) as (body & Hb & Hi & Hl).
        exists body. split; [exact Hb|]. split; [|exact Hl].
        intros x Hx. apply in_or_app. right. right. exact (Hi x Hx).
    + intros Hin.
      assert (Hacc' : ~ In 10%N (c :: acc)).
      { intros [->|Hx]; [discriminate | contradiction]. }
      destruct (IH (c :: acc) line Hacc' Hin) as (body & Hb & Hi & Hl).
      exists body. split; [exact Hb|]. split; [|exact Hl].
      cbn [rev] in Hi. now rewrite <- app_assoc in Hi.
Qed.

Lemma readlines_from_break (a b : str) : forall acc,
  readlines_from acc (a ++ 10%N :: b)
  = readlines_from acc (a ++ [10%N]) ++ readlines_from [] b.
Proof.
  induction a as [|c a IH]; intros acc; cbn [app readlines_from].
  - reflexivity.
  - destruct (N.eqb c 10); [now rewrite IH | apply IH].
Qed.

Lemma readlines_from_line (line : str) : forall acc,
  ~ In 10%N line ->
  readlines_from acc (line ++ [10%N]) = [rev acc ++ line ++ [10%N]].
Proof.
  induction line as [|c line IH]; intros acc Hn; cbn [app readlines_from].
  - reflexivity.
  - destruct (N.eqb c 10) eqn:Ec.
    + apply N.eqb_eq in Ec. subst. exfalso. apply Hn. now left.
    + rewrite IH by (intros Hin; apply Hn; now right).
      cbn [rev]. now rewrite <- app_assoc.
Qed.

Lemma strip_newline (s : str) : strip (s ++ [10%N]) = strip s.
Proof. exact (FilterProps.strip_padding [] s [10%N] eq_refl eq_refl). Qed.

(** X22.  Every default command read from the file is one line without
    its line break, not empty, with no whitespace at its ends; a missing or
    unreadable file gives none. *)
Theorem get_default_commands_lines (rd : read_io) (file : commands_file) :
  (forall command, In command (get_default_commands rd file) ->
     command <> [] /\ strip command = command /\
     ~ In 10%N command /\ ~ In 13%N command) /\
  get_default_commands rd None = [] /\
  get_default_commands ReadRaises file = [].
Proof.
  split; [|split; [reflexivity | destruct file; reflexivity]].
  intros command Hin. destruct file as [raw|]; [|destruct Hin].
  destruct rd; [|destruct Hin]. cbn [get_default_commands] in Hin.
  apply filter_In in Hin as [Hin Hne].
  apply in_map_iff in Hin as (line & <- & Hline).
  destruct (readlines_from_In _ [] line (fun x => x) Hline)
    as (body & Hb & Hi & Hl).
  assert (Hs : strip line = strip body).
  { destruct Hl as [->| ->]; [reflexivity | apply strip_newline]. }
  rewrite Hs in *. split; [|split; [|split]].
  - intros E. rewrite E in Hne. discriminate.
  - apply strip_idem.
  - intros Hx. apply Hb. exact (strip_incl _ _ Hx).
  - intros Hx. apply strip_incl, Hi in Hx.
    exact (InventoryProps.universal_newlines_clean raw Hx).
Qed.

Lemma get_default_commands_lines_witness :
  py "df -h" <> [] /\ strip (py "df -h") = py "df -h" /\
  ~ In 10%N (py "df -h") /\ ~ In 13%N (py "df -h").
Proof.
  apply (proj1 (get_default_commands_lines ReadOk
                  (Some (py "ls" ++ [13%N; 10%N; 10%N] ++ py " df -h ")))).
  vm_compute. right. left. reflexivity.
Defined.

(** X23.  A sanitized command that is not empty, written on a line of its
    own at the end of a file that is empty or ends with a line break (and
    holds no carriage return), is read back as one more default command, the
    last, after the ones the file already gave. *)
Theorem get_default_commands_append (raw command_text : str) :
  no_carriage_return raw ->
  raw = [] \/ (exists raw', raw = raw' ++ [10%N]) ->
  sanitize_input command_text <> [] ->
  get_default_commands ReadOk (Some (raw ++ sanitize_input command_text ++ nl))
  = get_default_commands ReadOk (Some raw) ++ [sanitize_input command_text].
Proof.
  intros Hcr Hend Hne. set (line := sanitize_input command_text) in *.
  assert (Hctl : forall c, In c line -> is_control c = false)
    by apply UtilsProps.sanitize_input_no_control.
  assert (Hn10 : ~ In 10%N line) by (intros Hx; now apply Hctl in Hx).
  assert (Hn13 : ~ In 13%N line) by (intros Hx; now apply Hctl in Hx).
  assert (Hstrip : strip (line ++ nl) = line).
  { unfold nl. rewrite strip_newline. unfold line, sanitize_input.
    apply strip_idem. }
  assert (Hclean : no_carriage_return (raw ++ line ++ nl)).
  { intros Hx. apply in_app_or in Hx as [Hx|Hx]; [contradiction|].
    apply in_app_or in Hx as [Hx|[Hx|[]]]; [contradiction | discriminate]. }
  cbn [get_default_commands].
  rewrite (ServersProps.universal_newlines_fixed _ Hclean),
          (ServersProps.universal_newlines_fixed _ Hcr).
  assert (Hone : filter nonempty (map strip (readlines (line ++ nl))) = [line]).
  { unfold readlines, nl. rewrite readlines_from_line by exact Hn10.
    cbn [rev app map filter]. fold nl. rewrite Hstrip.
    destruct line; [contradiction | reflexivity]. }
  destruct Hend as [->|[raw' ->]].
  - exact Hone.
  - unfold readlines in *. rewrite <- app_assoc. cbn [app].
    rewrite readlines_from_break, map_app, filter_app, Hone. reflexivity.
Qed.

Lemma get_default_commands_append_witness :
  get_default_commands ReadOk
    (Some ((py "ls -la" ++ [10%N]) ++ sanitize_input (py " df -h ") ++ nl))
  = get_default_commands ReadOk (Some (py "ls -la" ++ [10%N]))
      ++ [sanitize_input (py " df -h ")].
Proof.
  apply (get_default_commands_append (py "ls -la" ++ [10%N]) (py " df -h ")).
  - vm_compute. intuition discriminate.
  - right. now exists (py "ls -la").
  - vm_compute. discriminate.
Defined.

End BotProps.
